(** * WhisperTranscriber: a shallow embedding of [src/index.ts]

    The class [WhisperTranscriber] drives a browser: it loads scripts, asks
    for the microphone, records, decodes what was recorded and hands the
    samples to the whisper runtime, which it polls for text.  Everything in
    it is a callback or an [async] method, run to completion one at a time by
    the event loop.  The embedding follows that shape:

    - the fields of the class are the record [WhisperTranscriber];
    - the browser objects the class creates (promises, audio contexts, media
      recorders, interval timers, file readers) live in stores indexed by
      the order of their creation, in [Browser];
    - what the runtime and the observer callbacks were asked to do is kept
      as a trace, in [Engine] and [Observers];
    - every method call and every callback the browser may run is an
      [Event]; [step] runs one of them to completion, [run] a whole list.

    What the environment answers (the value [init] returns, the text
    [get_transcribed] returns, whether the microphone is granted) comes with
    the event.  The audio codec is a parameter of the development. *)

From stdpp Require Import base numbers option list strings.
From Stdlib.Init Require Import Byte.

(** ** JavaScript strings *)

(** The text the engine hands over is a JavaScript string: a sequence of
    UTF-16 code units, whose [length] property is the number of code units,
    here the length of the list.  (U+00E9 is the one unit 233; U+1F600 is the
    two units 55357, 56832.) *)
Definition JsString := list N.

(** The code units of the string hello. *)
Definition hello : JsString := [104; 101; 108; 108; 111]%N.

(** ** Configuration *)

Inductive ModelSize := TinyEn | BaseEn | TinyEnQ51 | BaseEnQ51.

(** [WhisperConfig]: every property is optional. The three observer
    callbacks are represented by the traces of [Observers]. *)
Record WhisperConfig := MkConfig {
  cfg_modelUrl : option string;
  cfg_modelSize : option ModelSize;
  cfg_sampleRate : option Z;
  cfg_audioIntervalMs : option Z;
  cfg_debug : option bool
}.

(** [Required<WhisperConfig>] *)
Record RequiredWhisperConfig := MkRequiredConfig {
  modelUrl : string;
  modelSize : ModelSize;
  sampleRate : Z;
  audioIntervalMs : Z;
  debug : bool
}.

Definition MODEL_URLS (m : ModelSize) : string :=
  match m with
  | TinyEn => "https://huggingface.co/ggerganov/whisper.cpp/resolve/main/ggml-tiny.en.bin"
  | BaseEn => "https://huggingface.co/ggerganov/whisper.cpp/resolve/main/ggml-base.en.bin"
  | TinyEnQ51 => "https://huggingface.co/ggerganov/whisper.cpp/resolve/main/ggml-tiny.en-q5_1.bin"
  | BaseEnQ51 => "https://huggingface.co/ggerganov/whisper.cpp/resolve/main/ggml-base.en-q5_1.bin"
  end.

Definition MODEL_SIZES (m : ModelSize) : Z :=
  match m with
  | TinyEn => 75
  | BaseEn => 142
  | TinyEnQ51 => 31
  | BaseEnQ51 => 57
  end%Z.

(** [a || b] on an optional string: the empty string is falsy. *)
Definition or_string (a : option string) (b : string) : string :=
  match a with
  | Some s => if String.eqb s EmptyString then b else s
  | None => b
  end.

(** [a || b] on an optional number: zero is falsy. *)
Definition or_number (a : option Z) (b : Z) : Z :=
  match a with
  | Some n => if Z.eqb n 0 then b else n
  | None => b
  end.

(** The constructor's resolution of the defaults. *)
Definition resolve_config (c : WhisperConfig) : RequiredWhisperConfig :=
  {| modelUrl := or_string (cfg_modelUrl c) (MODEL_URLS (default BaseEnQ51 (cfg_modelSize c)));
     modelSize := default BaseEnQ51 (cfg_modelSize c);
     sampleRate := or_number (cfg_sampleRate c) 16000%Z;
     audioIntervalMs := or_number (cfg_audioIntervalMs c) 5000%Z;
     debug := default false (cfg_debug c) |}.

(** ** Errors and completions *)

Inductive JsError :=
| ModelNotLoaded
| WhisperInitFailed
| HelpersLoadFailed
| WasmLoadFailed
| ModuleNotAvailable
| ModelLoadingCancelled
| NullDereference                 (* TypeError: a property read on null *)
| DeviceError (msg : string).     (* whatever getUserMedia rejects with *)

Definition message (e : JsError) : string :=
  match e with
  | ModelNotLoaded => "Model not loaded. Call loadModel() first."
  | WhisperInitFailed => "Failed to initialize Whisper"
  | HelpersLoadFailed => "Failed to load helpers"
  | WasmLoadFailed => "Failed to load WASM module"
  | ModuleNotAvailable => "Module not available after runtime initialized"
  | ModelLoadingCancelled => "Model loading cancelled"
  | NullDereference => "Cannot read properties of null"
  | DeviceError msg => msg
  end.

(** How a call ends: it returns (an [async] method: its promise is
    fulfilled), it throws (its promise is rejected), or it is suspended at
    an [await]: of the promise [p] of [initialize], or of the device
    request [r]. *)
Inductive Completion :=
| Returned
| Threw (e : JsError)
| AwaitingInit (p : nat)
| AwaitingDevice (r : nat).

(** ** Browser objects *)

(** The stages of the bring-up run by [initialize], in the order of the
    [await]s of its body. *)
Inductive BringUpStage := StageCOI | StageHelpers | StageWasm.

Inductive InitPromiseState :=
| BringUp (st : BringUpStage)     (* pending, the body is at this await *)
| InitFulfilled
| InitRejected (e : JsError).

(** The object literal given to [new AudioContext]. *)
Record AudioContextOptions := MkContextOptions {
  ctx_sampleRate : Z;
  ctx_channelCount : Z;
  ctx_echoCancellation : bool;
  ctx_autoGainControl : bool;
  ctx_noiseSuppression : bool
}.

Record AudioContextObj := MkContext {
  ctx_options : AudioContextOptions;
  ctx_closed : bool
}.

(** The argument of [getUserMedia]: each track is a boolean or a set of
    constraints. *)
Record MediaTrackConstraints := MkTrackConstraints {
  track_sampleRate : Z;
  track_channelCount : Z;
  track_echoCancellation : bool;
  track_autoGainControl : bool;
  track_noiseSuppression : bool
}.

Inductive TrackRequest :=
| TrackBool (b : bool)
| TrackConstrained (c : MediaTrackConstraints).

Record MediaStreamConstraints := MkStreamConstraints {
  cs_audio : TrackRequest;
  cs_video : bool
}.

Inductive RequestState :=
| RequestPending
| RequestGranted (recorder : nat)
| RequestDenied (e : JsError).

Record DeviceRequest := MkDeviceRequest {
  req_constraints : MediaStreamConstraints;
  req_state : RequestState
}.

(** A [MediaRecorder] together with the array [chunks] its
    [ondataavailable] handler closes over. *)
Record MediaRecorderObj := MkRecorder {
  rec_chunks : list (list byte);
  rec_timeslice : Z;
  rec_stopped : bool
}.

(** A timer made by [setInterval]. *)
Record IntervalTimer := MkInterval {
  period_ms : Z;
  cleared : bool
}.

Inductive TransferState :=
| TransferPending
| TransferStored
| TransferThrew (e : JsError)
| TransferCancelled.

(** A call of [loadRemote]. *)
Record Transfer := MkTransfer {
  tr_url : string;
  tr_dst : string;
  tr_size_mb : Z;
  tr_state : TransferState
}.

(** The runtime object that [onRuntimeInitialized] stores in [this.Module]. *)
Inductive RuntimeModule := WasmModule.

Section Transcriber.

(** A decoded audio sample (an element of a [Float32Array]); no operation
    of the class looks inside one. *)
Context {sample : Type}.

(** [decodeAudioData] followed by the offline rendering and
    [getChannelData(0)]: the samples of a blob, or nothing when the success
    callback is never called. *)
Variable decodeAudioData : list byte -> option (list sample).

(** One run of the [ondataavailable] handler, from the [FileReader] to the
    end of the rendering. *)
Inductive DecodeJob :=
| JobReading (blob : list byte)
| JobRendering (rendered : list sample)
| JobDone.

(** ** The state *)

(** The fields of the class. *)
Record WhisperTranscriber := MkTranscriber {
  config : RequiredWhisperConfig;
  instance : option Z;
  mediaRecorder : option nat;
  audioContext : option nat;
  isRecording : bool;
  audio : option (list sample);
  audio0 : option (list sample);
  Module_ : option RuntimeModule;
  modelLoaded : bool;
  initPromise : option nat
}.

Record Browser := MkBrowser {
  promises : list InitPromiseState;
  contexts : list AudioContextObj;
  recorders : list MediaRecorderObj;
  intervals : list IntervalTimer;
  jobs : list DecodeJob;
  deviceRequests : list DeviceRequest;
  loadWaiters : list (option nat);   (* loadModel calls at [await this.initialize()] *)
  transfers : list Transfer;
  restartTimers : nat;               (* pending [setTimeout(() => this.startRecording(), 0)] *)
  coiLoads : nat;                    (* runs of loadCOIServiceWorker *)
  helperLoads : nat;                 (* runs of loadHelpers *)
  wasmLoads : nat                    (* runs of loadWasmModule *)
}.

(** What the whisper runtime was asked to do. *)
Record Engine := MkEngine {
  engineStatus : string;             (* last argument of set_status *)
  initCalls : list Z;                (* what each call of init returned *)
  feeds : list (Z * list sample);    (* the arguments of each set_audio *)
  storedModel : option (list byte)   (* the file written by FS_createDataFile *)
}.

Record Observers := MkObservers {
  statusLog : list string;           (* arguments of config.onStatus *)
  transcriptions : list JsString;    (* arguments of config.onTranscription *)
  initReturns : list nat             (* the promise each initialize() returned *)
}.

Record World := MkWorld {
  ctl : WhisperTranscriber;
  dom : Browser;
  eng : Engine;
  obs : Observers
}.

Definition set_instance (v : option Z) (r : WhisperTranscriber) : WhisperTranscriber :=
  MkTranscriber (config r) v (mediaRecorder r) (audioContext r) (isRecording r)
    (audio r) (audio0 r) (Module_ r) (modelLoaded r) (initPromise r).
Definition set_mediaRecorder (v : option nat) (r : WhisperTranscriber) : WhisperTranscriber :=
  MkTranscriber (config r) (instance r) v (audioContext r) (isRecording r) (audio r)
    (audio0 r) (Module_ r) (modelLoaded r) (initPromise r).
Definition set_audioContext (v : option nat) (r : WhisperTranscriber) : WhisperTranscriber :=
  MkTranscriber (config r) (instance r) (mediaRecorder r) v (isRecording r) (audio r)
    (audio0 r) (Module_ r) (modelLoaded r) (initPromise r).
Definition set_isRecording (v : bool) (r : WhisperTranscriber) : WhisperTranscriber :=
  MkTranscriber (config r) (instance r) (mediaRecorder r) (audioContext r) v (audio r)
    (audio0 r) (Module_ r) (modelLoaded r) (initPromise r).
Definition set_audio (v : option (list sample)) (r : WhisperTranscriber) : WhisperTranscriber :=
  MkTranscriber (config r) (instance r) (mediaRecorder r) (audioContext r)
    (isRecording r) v (audio0 r) (Module_ r) (modelLoaded r) (initPromise r).
Definition set_audio0 (v : option (list sample)) (r : WhisperTranscriber) : WhisperTranscriber :=
  MkTranscriber (config r) (instance r) (mediaRecorder r) (audioContext r)
    (isRecording r) (audio r) v (Module_ r) (modelLoaded r) (initPromise r).
Definition set_Module_ (v : option RuntimeModule) (r : WhisperTranscriber) : WhisperTranscriber :=
  MkTranscriber (config r) (instance r) (mediaRecorder r) (audioContext r)
    (isRecording r) (audio r) (audio0 r) v (modelLoaded r) (initPromise r).
Definition set_modelLoaded (v : bool) (r : WhisperTranscriber) : WhisperTranscriber :=
  MkTranscriber (config r) (instance r) (mediaRecorder r) (audioContext r)
    (isRecording r) (audio r) (audio0 r) (Module_ r) v (initPromise r).
Definition set_initPromise (v : option nat) (r : WhisperTranscriber) : WhisperTranscriber :=
  MkTranscriber (config r) (instance r) (mediaRecorder r) (audioContext r)
    (isRecording r) (audio r) (audio0 r) (Module_ r) (modelLoaded r) v.

Definition set_promises (v : list InitPromiseState) (r : Browser) : Browser :=
  MkBrowser v (contexts r) (recorders r) (intervals r) (jobs r) (deviceRequests r)
    (loadWaiters r) (transfers r) (restartTimers r) (coiLoads r) (helperLoads r)
    (wasmLoads r).
Definition set_contexts (v : list AudioContextObj) (r : Browser) : Browser :=
  MkBrowser (promises r) v (recorders r) (intervals r) (jobs r) (deviceRequests r)
    (loadWaiters r) (transfers r) (restartTimers r) (coiLoads r) (helperLoads r)
    (wasmLoads r).
Definition set_recorders (v : list MediaRecorderObj) (r : Browser) : Browser :=
  MkBrowser (promises r) (contexts r) v (intervals r) (jobs r) (deviceRequests r)
    (loadWaiters r) (transfers r) (restartTimers r) (coiLoads r) (helperLoads r)
    (wasmLoads r).
Definition set_intervals (v : list IntervalTimer) (r : Browser) : Browser :=
  MkBrowser (promises r) (contexts r) (recorders r) v (jobs r) (deviceRequests r)
    (loadWaiters r) (transfers r) (restartTimers r) (coiLoads r) (helperLoads r)
    (wasmLoads r).
Definition set_jobs (v : list DecodeJob) (r : Browser) : Browser :=
  MkBrowser (promises r) (contexts r) (recorders r) (intervals r) v (deviceRequests r)
    (loadWaiters r) (transfers r) (restartTimers r) (coiLoads r) (helperLoads r)
    (wasmLoads r).
Definition set_deviceRequests (v : list DeviceRequest) (r : Browser) : Browser :=
  MkBrowser (promises r) (contexts r) (recorders r) (intervals r) (jobs r) v
    (loadWaiters r) (transfers r) (restartTimers r) (coiLoads r) (helperLoads r)
    (wasmLoads r).
Definition set_loadWaiters (v : list (option nat)) (r : Browser) : Browser :=
  MkBrowser (promises r) (contexts r) (recorders r) (intervals r) (jobs r)
    (deviceRequests r) v (transfers r) (restartTimers r) (coiLoads r) (helperLoads r)
    (wasmLoads r).
Definition set_transfers (v : list Transfer) (r : Browser) : Browser :=
  MkBrowser (promises r) (contexts r) (recorders r) (intervals r) (jobs r)
    (deviceRequests r) (loadWaiters r) v (restartTimers r) (coiLoads r) (helperLoads r)
    (wasmLoads r).
Definition set_restartTimers (v : nat) (r : Browser) : Browser :=
  MkBrowser (promises r) (contexts r) (recorders r) (intervals r) (jobs r)
    (deviceRequests r) (loadWaiters r) (transfers r) v (coiLoads r) (helperLoads r)
    (wasmLoads r).
Definition set_coiLoads (v : nat) (r : Browser) : Browser :=
  MkBrowser (promises r) (contexts r) (recorders r) (intervals r) (jobs r)
    (deviceRequests r) (loadWaiters r) (transfers r) (restartTimers r) v (helperLoads r)
    (wasmLoads r).
Definition set_helperLoads (v : nat) (r : Browser) : Browser :=
  MkBrowser (promises r) (contexts r) (recorders r) (intervals r) (jobs r)
    (deviceRequests r) (loadWaiters r) (transfers r) (restartTimers r) (coiLoads r) v
    (wasmLoads r).
Definition set_wasmLoads (v : nat) (r : Browser) : Browser :=
  MkBrowser (promises r) (contexts r) (recorders r) (intervals r) (jobs r)
    (deviceRequests r) (loadWaiters r) (transfers r) (restartTimers r) (coiLoads r)
    (helperLoads r) v.

Definition set_engineStatus (v : string) (r : Engine) : Engine :=
  MkEngine v (initCalls r) (feeds r) (storedModel r).
Definition set_initCalls (v : list Z) (r : Engine) : Engine :=
  MkEngine (engineStatus r) v (feeds r) (storedModel r).
Definition set_feeds (v : list (Z * list sample)) (r : Engine) : Engine :=
  MkEngine (engineStatus r) (initCalls r) v (storedModel r).
Definition set_storedModel (v : option (list byte)) (r : Engine) : Engine :=
  MkEngine (engineStatus r) (initCalls r) (feeds r) v.

Definition set_statusLog (v : list string) (r : Observers) : Observers :=
  MkObservers v (transcriptions r) (initReturns r).
Definition set_transcriptions (v : list JsString) (r : Observers) : Observers :=
  MkObservers (statusLog r) v (initReturns r).
Definition set_initReturns (v : list nat) (r : Observers) : Observers :=
  MkObservers (statusLog r) (transcriptions r) v.

Definition on_ctl (f : WhisperTranscriber -> WhisperTranscriber) (w : World) : World :=
  MkWorld (f (ctl w)) (dom w) (eng w) (obs w).
Definition on_dom (f : Browser -> Browser) (w : World) : World :=
  MkWorld (ctl w) (f (dom w)) (eng w) (obs w).
Definition on_eng (f : Engine -> Engine) (w : World) : World :=
  MkWorld (ctl w) (dom w) (f (eng w)) (obs w).
Definition on_obs (f : Observers -> Observers) (w : World) : World :=
  MkWorld (ctl w) (dom w) (eng w) (f (obs w)).

(** ** Small helpers *)

(** JavaScript truthiness of [this.instance]: [null] and [0] are falsy. *)
Definition truthy (i : option Z) : bool :=
  match i with
  | Some n => negb (Z.eqb n 0)
  | None => false
  end.

(** [this.config.onStatus(s)] *)
Definition fire_status (s : string) (w : World) : World :=
  on_obs (fun o => set_statusLog (statusLog o ++ [s]) o) w.

Definition settle_promise (p : nat) (st : InitPromiseState) (w : World) : World :=
  on_dom (fun d => set_promises (<[p := st]> (promises d)) d) w.

Definition settle_request (r : nat) (st : RequestState) (w : World) : World :=
  on_dom (fun d =>
    set_deviceRequests
      (alter (fun q => MkDeviceRequest (req_constraints q) st) r (deviceRequests d)) d) w.

Definition settle_transfer (t : nat) (st : TransferState) (w : World) : World :=
  on_dom (fun d =>
    set_transfers
      (alter (fun x => MkTransfer (tr_url x) (tr_dst x) (tr_size_mb x) st) t (transfers d)) d) w.

Definition settle_job (j : nat) (st : DecodeJob) (w : World) : World :=
  on_dom (fun d => set_jobs (<[j := st]> (jobs d)) d) w.

(** [recorder.stop()]; on a recorder that is already inactive the call
    returns without effect. *)
Definition stop_recorder (r : nat) (w : World) : World :=
  on_dom (fun d =>
    set_recorders
      (alter (fun x => MkRecorder (rec_chunks x) (rec_timeslice x) true) r (recorders d)) d) w.

(** [context.close()]; it returns a promise and does not throw. *)
Definition close_context (a : nat) (w : World) : World :=
  on_dom (fun d =>
    set_contexts (alter (fun x => MkContext (ctx_options x) true) a (contexts d)) d) w.

(** ** initialize (index.ts, 283-314) *)

(** [initialize] is [async]: each call hands its caller a wrapper promise
    that adopts the promise the body returns, so what a caller observes is
    the state of the returned [this.initPromise]; that promise is what the
    embedding returns and records in [initReturns].  The body of the inner
    [async] function runs up to its first [await], inside
    [loadCOIServiceWorker], before [this.initPromise] is assigned; no other
    callback can run in between. *)
Definition initialize (w : World) : World * nat :=
  match initPromise (ctl w) with
  | Some p => (on_obs (fun o => set_initReturns (initReturns o ++ [p]) o) w, p)
  | None =>
      let p := length (promises (dom w)) in
      let w1 := on_dom (fun d =>
                  set_coiLoads (S (coiLoads d))
                    (set_promises (promises d ++ [BringUp StageCOI]) d)) w in
      let w2 := on_ctl (set_initPromise (Some p)) w1 in
      (on_obs (fun o => set_initReturns (initReturns o ++ [p]) o) w2, p)
  end.

(** [loadCOIServiceWorker] settles; it resolves on load and on error alike,
    and the body goes on to [loadHelpers]. *)
Definition coi_settled (p : nat) (w : World) : World :=
  match promises (dom w) !! p with
  | Some (BringUp StageCOI) =>
      on_dom (fun d => set_helperLoads (S (helperLoads d)) d)
        (settle_promise p (BringUp StageHelpers) w)
  | _ => w
  end.

(** [loadHelpers] settles: on load the body goes on to [loadWasmModule], on
    error the [catch] rethrows and the promise is rejected. *)
Definition helpers_settled (p : nat) (loaded : bool) (w : World) : World :=
  match promises (dom w) !! p with
  | Some (BringUp StageHelpers) =>
      if loaded
      then on_dom (fun d => set_wasmLoads (S (wasmLoads d)) d)
             (settle_promise p (BringUp StageWasm) w)
      else settle_promise p (InitRejected HelpersLoadFailed) w
  | _ => w
  end.

(** [loadWasmModule] settles: the timeout of [onRuntimeInitialized] stores
    the runtime in [this.Module] and resolves, after which the body fires
    the status and ends; or the promise is rejected. *)
Definition wasm_settled (p : nat) (r : JsError + RuntimeModule) (w : World) : World :=
  match promises (dom w) !! p with
  | Some (BringUp StageWasm) =>
      match r with
      | inr m =>
          let w1 := on_ctl (set_Module_ (Some m)) w in
          let w2 := fire_status "Ready to load model" w1 in
          settle_promise p InitFulfilled w2
      | inl e => settle_promise p (InitRejected e) w
      end
  | _ => w
  end.

(** ** loadModel (index.ts, 316-360) *)

Definition loadModel (w : World) : World * Completion :=
  if modelLoaded (ctl w) then (w, Returned)
  else
    let '(w1, p) := initialize w in
    (on_dom (fun d => set_loadWaiters (loadWaiters d ++ [Some p]) d) w1, AwaitingInit p).

(** The rest of [loadModel], once the awaited promise is settled: with a
    fulfilled promise [loadRemote] is called, with a rejected one the call
    ends with that error. *)
Definition loadModel_resume (i : nat) (w : World) : World :=
  match loadWaiters (dom w) !! i with
  | Some (Some p) =>
      let resumed := on_dom (fun d => set_loadWaiters (<[i := None]> (loadWaiters d)) d) w in
      match promises (dom w) !! p with
      | Some InitFulfilled =>
          let w1 := fire_status "Loading model..." resumed in
          on_dom (fun d =>
            set_transfers
              (transfers d ++
                 [MkTransfer (modelUrl (config (ctl w))) "whisper.bin"
                    (MODEL_SIZES (modelSize (config (ctl w)))) TransferPending]) d) w1
      | Some (InitRejected _) => resumed
      | _ => w
      end
  | _ => w
  end.

(** [storeFS], the completion callback given to [loadRemote].  The failure
    of [FS_unlink] is caught; [this.Module.FS_createDataFile] on a null
    [this.Module] throws before [modelLoaded] is assigned. *)
Definition storeFS (t : nat) (buf : list byte) (w : World) : World :=
  match tr_state <$> transfers (dom w) !! t with
  | Some TransferPending =>
      match Module_ (ctl w) with
      | None => settle_transfer t (TransferThrew NullDereference) w
      | Some _ =>
          let w1 := on_eng (set_storedModel (Some buf)) w in
          let w2 := on_ctl (set_modelLoaded true) w1 in
          let w3 := fire_status "Model loaded successfully" w2 in
          settle_transfer t TransferStored w3
      end
  | _ => w
  end.

Definition cbCancel (t : nat) (w : World) : World :=
  match tr_state <$> transfers (dom w) !! t with
  | Some TransferPending =>
      settle_transfer t TransferCancelled (fire_status "Model loading cancelled" w)
  | _ => w
  end.

(** ** startRecording (index.ts, 362-465) *)

(** Lines 372-381.  [initRet] is what [init('whisper.bin')] returns if it is
    called. *)
Definition ensure_instance (initRet : Z) (w : World) : World * option JsError :=
  if truthy (instance (ctl w)) then (w, None)
  else
    match Module_ (ctl w) with
    | None => (w, Some NullDereference)
    | Some _ =>
        let w1 := on_eng (fun e => set_initCalls (initCalls e ++ [initRet]) e) w in
        let w2 := on_ctl (set_instance (Some initRet)) w1 in
        if truthy (instance (ctl w2)) then (w2, None) else (w2, Some WhisperInitFailed)
    end.

(** The object literal of line 384. *)
Definition recordingContextOptions (c : RequiredWhisperConfig) : AudioContextOptions :=
  {| ctx_sampleRate := sampleRate c;
     ctx_channelCount := 1;
     ctx_echoCancellation := false;
     ctx_autoGainControl := true;
     ctx_noiseSuppression := true |}.

(** The object literal of line 401. *)
Definition userMediaConstraints : MediaStreamConstraints :=
  {| cs_audio := TrackBool true; cs_video := false |}.

(** The method up to [await navigator.mediaDevices.getUserMedia(...)]. *)
Definition startRecording (initRet : Z) (w : World) : World * Completion :=
  if negb (modelLoaded (ctl w)) then (w, Threw ModelNotLoaded)
  else if isRecording (ctl w) then (w, Returned)
  else
    match ensure_instance initRet w with
    | (w1, Some e) => (w1, Threw e)
    | (w1, None) =>
        let a := length (contexts (dom w1)) in
        let w2 := on_dom (fun d =>
                    set_contexts
                      (contexts d ++ [MkContext (recordingContextOptions (config (ctl w1))) false])
                      d) w1 in
        let w3 := on_ctl (set_audioContext (Some a)) w2 in
        match Module_ (ctl w3) with
        | None => (w3, Threw NullDereference)
        | Some _ =>
            let w4 := on_eng (set_engineStatus EmptyString) w3 in
            let w5 := on_ctl (set_isRecording true) w4 in
            let w6 := fire_status "Recording..." w5 in
            let r := length (deviceRequests (dom w6)) in
            (on_dom (fun d =>
               set_deviceRequests
                 (deviceRequests d ++ [MkDeviceRequest userMediaConstraints RequestPending]) d) w6,
             AwaitingDevice r)
        end
    end.

(** startTranscriptionPolling (index.ts, 467-481): the [setInterval]. *)
Definition startTranscriptionPolling (w : World) : World :=
  on_dom (fun d => set_intervals (intervals d ++ [MkInterval 100 false]) d) w.

(** The rest of the [try] block once the device request [r] is granted:
    lines 402-459. *)
Definition userMedia_granted (r : nat) (w : World) : World :=
  match req_state <$> deviceRequests (dom w) !! r with
  | Some RequestPending =>
      let rid := length (recorders (dom w)) in
      let w1 := on_dom (fun d =>
                  set_recorders
                    (recorders d ++
                       [MkRecorder [] (audioIntervalMs (config (ctl w))) false]) d) w in
      let w2 := on_ctl (set_mediaRecorder (Some rid)) w1 in
      let w3 := startTranscriptionPolling w2 in
      settle_request r (RequestGranted rid) w3
  | _ => w
  end.

(** The [catch] block, lines 460-464, when the device request [r] is
    rejected with [e]; the call ends with [e]. *)
Definition userMedia_denied (r : nat) (e : JsError) (w : World) : World :=
  match req_state <$> deviceRequests (dom w) !! r with
  | Some RequestPending =>
      let w1 := on_ctl (set_isRecording false) w in
      let w2 := fire_status ("Error: " +:+ message e) w1 in
      settle_request r (RequestDenied e) w2
  | _ => w
  end.

(** [mediaRecorder.ondataavailable], lines 404-408 and 447: the chunk is
    pushed, a blob is made of all the chunks so far and given to a
    [FileReader]. *)
Definition ondataavailable (rid : nat) (chunk : list byte) (w : World) : World :=
  match recorders (dom w) !! rid with
  | Some rc =>
      let chunks := rec_chunks rc ++ [chunk] in
      on_dom (fun d =>
        set_jobs (jobs d ++ [JobReading (concat chunks)])
          (set_recorders
             (<[rid := MkRecorder chunks (rec_timeslice rc) (rec_stopped rc)]> (recorders d)) d)) w
  | None => w
  end.

(** [reader.onload], lines 410-426: nothing happens without an audio
    context; otherwise the blob is decoded and rendered. *)
Definition reader_onload (j : nat) (w : World) : World :=
  match jobs (dom w) !! j with
  | Some (JobReading blob) =>
      match audioContext (ctl w) with
      | None => settle_job j JobDone w
      | Some _ =>
          match decodeAudioData blob with
          | Some rendered => settle_job j (JobRendering rendered) w
          | None => settle_job j JobDone w
          end
      end
  | _ => w
  end.

(** The callback of [startRendering], lines 427-443. *)
Definition rendering_done (j : nat) (w : World) : World :=
  match jobs (dom w) !! j with
  | Some (JobRendering rendered) =>
      let w1 := settle_job j JobDone (on_ctl (set_audio (Some rendered)) w) in
      let audioAll :=
        match audio0 (ctl w1) with
        | None => rendered
        | Some previous => previous ++ rendered
        end in
      match instance (ctl w1) with
      | Some handle =>
          if truthy (Some handle)
          then
            match Module_ (ctl w1) with
            | Some _ => on_eng (fun e => set_feeds (feeds e ++ [(handle, audioAll)]) e) w1
            | None => w1
            end
          else w1
      | None => w1
      end
  | _ => w
  end.

(** [mediaRecorder.onstop], lines 450-454. *)
Definition recorder_onstop (rid : nat) (w : World) : World :=
  match recorders (dom w) !! rid with
  | Some _ =>
      if isRecording (ctl w)
      then on_dom (fun d => set_restartTimers (S (restartTimers d)) d) w
      else w
  | None => w
  end.

(** The timeout set by [onstop]: [this.startRecording()]. *)
Definition restart_timer (initRet : Z) (w : World) : World :=
  match restartTimers (dom w) with
  | O => w
  | S n => fst (startRecording initRet (on_dom (set_restartTimers n) w))
  end.

(** One tick of the interval [t], lines 468-480.  [pulled] is what
    [get_transcribed()] returns if it is called ([None] for [null]);
    [transcribed.length] at line 477 is the number of its UTF-16 code
    units. *)
Definition poll_tick (t : nat) (pulled : option JsString) (w : World) : World :=
  match cleared <$> intervals (dom w) !! t with
  | Some false =>
      if negb (isRecording (ctl w))
      then on_dom (fun d =>
             set_intervals (alter (fun x => MkInterval (period_ms x) true) t (intervals d)) d) w
      else
        match Module_ (ctl w) with
        | None => w
        | Some _ =>
            match pulled with
            | Some transcribed =>
                if (1 <? length transcribed)%nat
                then on_obs (fun o => set_transcriptions (transcriptions o ++ [transcribed]) o) w
                else w
            | None => w
            end
        end
  | _ => w
  end.

(** ** stopRecording (index.ts, 483-506) *)

Definition stopRecording (w : World) : World * Completion :=
  if negb (isRecording (ctl w)) then (w, Returned)
  else
    match Module_ (ctl w) with
    | None => (w, Threw NullDereference)
    | Some _ =>
        let w1 := on_eng (set_engineStatus "paused") w in
        let w2 := on_ctl (fun c => set_audio None (set_audio0 None (set_isRecording false c))) w1 in
        let w3 := match mediaRecorder (ctl w2) with
                  | Some r => on_ctl (set_mediaRecorder None) (stop_recorder r w2)
                  | None => w2
                  end in
        let w4 := match audioContext (ctl w3) with
                  | Some a => on_ctl (set_audioContext None) (close_context a w3)
                  | None => w3
                  end in
        (fire_status "Stopped" w4, Returned)
    end.

(** ** destroy (index.ts, 508-513) *)

Definition destroy (w : World) : World * Completion :=
  match stopRecording w with
  | (w1, Threw e) => (w1, Threw e)
  | (w1, _) =>
      (on_ctl (fun c => set_modelLoaded false (set_Module_ None (set_instance None c))) w1,
       Returned)
  end.

(** ** The event loop *)

Inductive Event :=
| CallInitialize
| CoiSettled (p : nat)
| HelpersSettled (p : nat) (loaded : bool)
| WasmSettled (p : nat) (r : JsError + RuntimeModule)
| CallLoadModel
| LoadModelResume (i : nat)
| TransferComplete (t : nat) (buf : list byte)
| TransferCancel (t : nat)
| CallStartRecording (initRet : Z)
| UserMediaGranted (r : nat)
| UserMediaDenied (r : nat) (msg : string)
| DataAvailable (rid : nat) (chunk : list byte)
| ReaderLoaded (j : nat)
| RenderingDone (j : nat)
| RecorderStop (rid : nat)
| RestartTimer (initRet : Z)
| PollTick (t : nat) (pulled : option JsString)
| CallStopRecording
| CallDestroy.

Definition step (w : World) (ev : Event) : World :=
  match ev with
  | CallInitialize => fst (initialize w)
  | CoiSettled p => coi_settled p w
  | HelpersSettled p loaded => helpers_settled p loaded w
  | WasmSettled p r => wasm_settled p r w
  | CallLoadModel => fst (loadModel w)
  | LoadModelResume i => loadModel_resume i w
  | TransferComplete t buf => storeFS t buf w
  | TransferCancel t => cbCancel t w
  | CallStartRecording initRet => fst (startRecording initRet w)
  | UserMediaGranted r => userMedia_granted r w
  | UserMediaDenied r msg => userMedia_denied r (DeviceError msg) w
  | DataAvailable rid chunk => ondataavailable rid chunk w
  | ReaderLoaded j => reader_onload j w
  | RenderingDone j => rendering_done j w
  | RecorderStop rid => recorder_onstop rid w
  | RestartTimer initRet => restart_timer initRet w
  | PollTick t pulled => poll_tick t pulled w
  | CallStopRecording => fst (stopRecording w)
  | CallDestroy => fst (destroy w)
  end.

Definition run (evs : list Event) (w : World) : World := fold_left step evs w.

(** The state after [new WhisperTranscriber(c)]. *)
Definition new_transcriber (c : WhisperConfig) : World :=
  {| ctl := {| config := resolve_config c;
               instance := None;
               mediaRecorder := None;
               audioContext := None;
               isRecording := false;
               audio := None;
               audio0 := None;
               Module_ := None;
               modelLoaded := false;
               initPromise := None |};
     dom := MkBrowser [] [] [] [] [] [] [] [] 0 0 0 0;
     eng := MkEngine EmptyString [] [] None;
     obs := MkObservers [] [] [] |}.

Definition reachable (c : WhisperConfig) (w : World) : Prop :=
  exists evs, w = run evs (new_transcriber c).

End Transcriber.

Arguments World : clear implicits.
Arguments WhisperTranscriber : clear implicits.
Arguments Engine : clear implicits.
Arguments DecodeJob : clear implicits.
Arguments Browser : clear implicits.

(** The number of engine instances created: the calls of [init] that
    returned a handle. *)
Definition creations {sample : Type} (w : World sample) : nat :=
  length (filter (fun h => h ≠ 0%Z) (initCalls (eng w))).

(** ** Invariants of the reachable states *)

(** The most [loadHelpers] and [loadWasmModule] can have run, given how far
    the promise of [initialize] has come. *)
Definition helper_bound (ps : list InitPromiseState) : nat :=
  match ps !! 0%nat with
  | None | Some (BringUp StageCOI) => 0
  | _ => 1
  end.

Definition wasm_bound (ps : list InitPromiseState) : nat :=
  match ps !! 0%nat with
  | None | Some (BringUp StageCOI) | Some (BringUp StageHelpers) => 0
  | _ => 1
  end.

Definition is_settled (st : InitPromiseState) : bool :=
  match st with
  | BringUp _ => false
  | _ => true
  end.

Record Inv {sample : Type} (w : World sample) : Prop := MkInv {
  inv_recording_loaded : isRecording (ctl w) = true -> modelLoaded (ctl w) = true;
  inv_loaded_module : modelLoaded (ctl w) = true -> Module_ (ctl w) <> None;
  inv_instance_module : truthy (instance (ctl w)) = true -> Module_ (ctl w) <> None;
  inv_audio0 : audio0 (ctl w) = None;
  inv_one_promise : (length (promises (dom w)) <= 1)%nat;
  inv_coi : coiLoads (dom w) = length (promises (dom w));
  inv_helpers : (helperLoads (dom w) <= helper_bound (promises (dom w)))%nat;
  inv_wasm : (wasmLoads (dom w) <= wasm_bound (promises (dom w)))%nat;
  inv_no_promise : initPromise (ctl w) = None -> promises (dom w) = [];
  inv_promise_bound :
    forall p, initPromise (ctl w) = Some p -> (p < length (promises (dom w)))%nat;
  inv_returns : forall p, p ∈ initReturns (obs w) -> initPromise (ctl w) = Some p;
  inv_module_fulfilled :
    Module_ (ctl w) <> None -> promises (dom w) !! 0%nat = Some InitFulfilled;
  inv_created_once : (creations w <= 1)%nat;
  inv_instance_created : truthy (instance (ctl w)) = true -> creations w = 1%nat;
  inv_created_instance :
    creations w = 1%nat ->
    truthy (instance (ctl w)) = true \/
    (Module_ (ctl w) = None /\ promises (dom w) !! 0%nat = Some InitFulfilled)
}.



(** Every interval timer has the period of the poller. *)
Definition periods_ok {sample : Type} (w : World sample) : Prop :=
  Forall (fun tm => period_ms tm = 100%Z) (intervals (dom w)).

(** The only bring-up has settled and [this.Module] is null. *)
Definition inert {sample : Type} (w : World sample) : Prop :=
  Module_ (ctl w) = None /\
  exists st, is_settled st = true /\ promises (dom w) !! 0%nat = Some st.

(** ** Words of the claims *)

(** What [set_audio] receives for a cumulative buffer, if it decodes. *)
Definition fed {sample : Type} (decodeAudioData : list byte -> option (list sample))
    (h : Z) (blob : list byte) : option (Z * list sample) :=
  pair h <$> decodeAudioData blob.

(** One segment delivered and processed to its end before the next one: the
    chunk reaches recorder [rid], whose handler makes job [j]. *)
Definition deliver (rid j : nat) (chunk : list byte) : list Event :=
  [DataAvailable rid chunk; ReaderLoaded j; RenderingDone j].

Fixpoint deliver_in_order (rid j : nat) (chunks : list (list byte)) : list Event :=
  match chunks with
  | [] => []
  | chunk :: rest => deliver rid j chunk ++ deliver_in_order rid (S j) rest
  end.

(** The cumulative raw buffer after each of [chunks], starting from the
    chunks already held. *)
Fixpoint cumulative_blobs (held chunks : list (list byte)) : list (list byte) :=
  match chunks with
  | [] => []
  | chunk :: rest => concat (held ++ [chunk]) :: cumulative_blobs (held ++ [chunk]) rest
  end.

Definition is_initialize (ev : Event) : bool :=
  match ev with
  | CallInitialize => true
  | _ => false
  end.

(** A later [initialize()] re-runs bring-up and succeeds: the promise it
    returns is fulfilled after some run of the event loop. *)
Definition retry_succeeds {sample : Type}
    (decodeAudioData : list byte -> option (list sample)) (w : World sample) : Prop :=
  exists evs,
    promises (dom (run decodeAudioData evs (fst (initialize w)))) !! snd (initialize w)
    = Some InitFulfilled.

(** The controller records again after some run of the event loop. *)
Definition records_again {sample : Type}
    (decodeAudioData : list byte -> option (list sample)) (w : World sample) : Prop :=
  exists evs, isRecording (ctl (run decodeAudioData evs w)) = true.



(** ** Scenarios

    Concrete runs, with a codec that turns every byte of a blob into 500
    samples carrying that byte. *)
Module Scenario.

Definition mock_decode (blob : list byte) : option (list byte) :=
  Some (b ← blob; replicate 500 b).

Definition no_options : WhisperConfig := MkConfig None None None None None.

(** loadModel(), which calls initialize(), run to its end. *)
Definition bring_up : list Event :=
  [ CallLoadModel; CoiSettled 0; HelpersSettled 0 true; WasmSettled 0 (inr WasmModule);
    LoadModelResume 0; TransferComplete 0 [x01; x02; x03] ].

Definition model_ready : World byte := run mock_decode bring_up (new_transcriber no_options).

(** startRecording() with the microphone granted. *)
Definition start_granted : list Event := [CallStartRecording 7; UserMediaGranted 0].

Definition recording : World byte := run mock_decode start_granted model_ready.

(** Three segments whose cumulative buffers decode to 1000, 1500 and 2000
    samples. *)
Definition three_segments : list (list byte) := [[x01; x02]; [x03]; [x04]].



(** stopRecording() then destroy(). *)
Definition destroyed : World byte := run mock_decode [CallStopRecording; CallDestroy] recording.

(** initialize() whose helper script fails to load. *)
Definition failed_bring_up : World byte :=
  run mock_decode [CallInitialize; CoiSettled 0; HelpersSettled 0 false]
    (new_transcriber no_options).

End Scenario.

(** ** Further invariants *)

(** The configuration is the one the constructor resolved, and every
    transfer, audio context and media recorder was made from it. *)
Record stores_follow_config {sample : Type} (c : WhisperConfig) (w : World sample) : Prop :=
  MkFollow {
  follow_config : config (ctl w) = resolve_config c;
  follow_transfers :
    Forall (fun t =>
              tr_url t = modelUrl (resolve_config c) /\
              tr_dst t = "whisper.bin" /\
              tr_size_mb t = MODEL_SIZES (modelSize (resolve_config c)))
           (transfers (dom w));
  follow_contexts :
    Forall (fun x => ctx_options x = recordingContextOptions (resolve_config c))
           (contexts (dom w));
  follow_recorders :
    Forall (fun x => rec_timeslice x = audioIntervalMs (resolve_config c))
           (recorders (dom w))
}.

(** While recording, the controller holds an engine instance. *)
Definition recording_has_instance {sample : Type} (w : World sample) : Prop :=
  isRecording (ctl w) = true -> truthy (instance (ctl w)) = true.

(** A controller that can no longer reach the engine: the bring-up has
    settled, [this.Module] is null and no instance is held. *)
Definition retired {sample : Type} (w : World sample) : Prop :=
  inert w /\ truthy (instance (ctl w)) = false.

(** Until the bring-up is fulfilled nothing has been transferred, asked of
    the device or of the engine, or reported. *)
Definition quiet_until_ready {sample : Type} (w : World sample) : Prop :=
  promises (dom w) !! 0%nat <> Some InitFulfilled ->
  transfers (dom w) = [] /\ deviceRequests (dom w) = [] /\ contexts (dom w) = [] /\
  initCalls (eng w) = [] /\ statusLog (obs w) = [].

(** The transfer [loadModel] starts. *)
Definition modelTransfer (c : RequiredWhisperConfig) : Transfer :=
  {| tr_url := modelUrl c;
     tr_dst := "whisper.bin";
     tr_size_mb := MODEL_SIZES (modelSize c);
     tr_state := TransferPending |}.

(** The handle the controller holds, and the handle of every feed, is a
    handle that init returned. *)
Definition handles_from_init {sample : Type} (w : World sample) : Prop :=
  (forall h, instance (ctl w) = Some h -> h <> 0%Z -> h ∈ initCalls (eng w)) /\
  Forall (fun f => fst f <> 0%Z /\ fst f ∈ initCalls (eng w)) (feeds (eng w)).

(** How many times onStatus was called with "Ready to load model". *)
Definition ready_announcements {sample : Type} (w : World sample) : nat :=
  length (filter (fun s => s = "Ready to load model") (statusLog (obs w))).

(** The runtime has been announced ready exactly when the bring-up is
    fulfilled. *)
Definition announced_when_ready {sample : Type} (w : World sample) : Prop :=
  ready_announcements w =
  match promises (dom w) !! 0%nat with
  | Some InitFulfilled => 1%nat
  | _ => 0%nat
  end.

(** A blob made of the first chunks of one recorder. *)
Definition prefix_blob {sample : Type} (w : World sample) (blob : list byte) : Prop :=
  exists rid rc k,
    recorders (dom w) !! rid = Some rc /\
    (k <= length (rec_chunks rc))%nat /\
    blob = concat (take k (rec_chunks rc)).

(** Samples that are the decoding of such a blob. *)
Definition decoded_prefix {sample : Type}
    (decodeAudioData : list byte -> option (list sample))
    (w : World sample) (rendered : list sample) : Prop :=
  exists blob, prefix_blob w blob /\ decodeAudioData blob = Some rendered.

(** Every job in flight and every feed comes from such a blob. *)
Definition feeds_from_prefixes {sample : Type}
    (decodeAudioData : list byte -> option (list sample)) (w : World sample) : Prop :=
  (forall j blob, jobs (dom w) !! j = Some (JobReading blob) -> prefix_blob w blob) /\
  (forall j rendered,
     jobs (dom w) !! j = Some (JobRendering rendered) ->
     decoded_prefix decodeAudioData w rendered) /\
  (forall f, f ∈ feeds (eng w) -> decoded_prefix decodeAudioData w (snd f)).

(** The events that run startRecording(): a call of it, and the timeout set
    by onstop. *)
Definition starts_recording (ev : Event) : bool :=
  match ev with
  | CallStartRecording _ | RestartTimer _ => true
  | _ => false
  end.

Definition is_rendering {sample : Type} (x : DecodeJob sample) : bool :=
  match x with
  | JobRendering _ => true
  | _ => false
  end.

(** No decoding is in flight: no job has been decoded and awaits the end
    of its rendering. *)
Definition nothing_rendering {sample : Type} (w : World sample) : Prop :=
  Forall (fun x => is_rendering x = false) (jobs (dom w)).

(** ** Further concrete runs *)

Module Runs.
Import Scenario.

(** Options with an explicit URL and model size, a falsy sample rate and an
    interval of two seconds. *)
Definition custom_options : WhisperConfig :=
  MkConfig (Some "https://example.org/model.bin") (Some TinyEn) (Some 0%Z) (Some 2000%Z) None.

(** The model loaded and the microphone granted under [custom_options]. *)
Definition custom_recording : World byte :=
  run mock_decode (bring_up ++ start_granted) (new_transcriber custom_options).

(** initialize() run to its end, loadModel() not yet called. *)
Definition runtime_ready : World byte :=
  run mock_decode
    [CallInitialize; CoiSettled 0; HelpersSettled 0 true; WasmSettled 0 (inr WasmModule)]
    (new_transcriber no_options).

(** A recording that has processed three segments in order. *)
Definition fed : World byte :=
  run mock_decode (deliver_in_order 0 0 three_segments) recording.

(** The state in which startRecording(), called from [model_ready], awaits
    the device. *)
Definition awaiting_device : World byte := fst (startRecording 7 model_ready).


End Runs.
(** * Proofs *)

Section Proofs.

Context {sample : Type}.
Variable decodeAudioData : list byte -> option (list sample).

Local Abbreviation World := (World sample).
Local Abbreviation step := (step decodeAudioData).
Local Abbreviation run := (run decodeAudioData).
Local Abbreviation reachable := (reachable decodeAudioData).
Local Abbreviation new_transcriber := (new_transcriber (sample:=sample)).

Lemma creations_init_call (w : World) (h : Z) :
  creations (on_eng (fun e => set_initCalls (initCalls e ++ [h]) e) w) =
  (creations w + (if decide (h ≠ 0%Z) then 1 else 0))%nat.
Proof.
  unfold creations. simpl. rewrite filter_app, length_app. f_equal.
  rewrite filter_cons, filter_nil. destruct (decide (h ≠ 0%Z)); reflexivity.
Qed.

Lemma truthy_Some (h : Z) : truthy (Some h) = true <-> h ≠ 0%Z.
Proof. unfold truthy. rewrite negb_true_iff, Z.eqb_neq. reflexivity. Qed.

Ltac inv_frame H :=
  destruct H; constructor;
  simpl in *; unfold creations, helper_bound, wasm_bound in *; simpl in *; auto.

(** Destructs the world and its store of promises, which holds one promise
    at most. *)
Ltac one_promise w H :=
  let Hlen := fresh "Hlen" in
  pose proof (inv_one_promise _ H) as Hlen;
  destruct w as [c d e o]; destruct d as [ps ? ? ? ? ? ? ? ? ? ? ?];
  simpl in Hlen;
  destruct ps as [|st [|? ?]]; [ | | simpl in Hlen; lia]; clear Hlen.

Lemma Inv_new c : Inv (new_transcriber c).
Proof.
  constructor; simpl; try done; try lia.
  - intros p Hp. inversion Hp.
  - unfold creations. simpl. lia.
Qed.

Lemma Inv_initialize (w : World) : Inv w -> Inv (fst (initialize w)).
Proof.
  intros H. unfold initialize. destruct (initPromise (ctl w)) as [p|] eqn:Hp.
  - inv_frame H.
    intros q Hq. apply elem_of_app in Hq as [Hq|Hq]; auto.
    apply list_elem_of_singleton in Hq. congruence.
  - pose proof (inv_no_promise _ H Hp) as Hnil.
    inv_frame H; rewrite ?Hnil in *; simpl in *; try lia; try congruence.
    + intros q [=<-]. lia.
    + intros q Hq. apply elem_of_app in Hq as [Hq|Hq].
      * apply inv_returns0 in Hq. congruence.
      * apply list_elem_of_singleton in Hq. congruence.
    + intros Hm. apply inv_module_fulfilled0 in Hm. discriminate.
    + intros Hc. destruct (inv_created_instance0 Hc) as [Ht|[_ Hf]]; [auto|discriminate].
Qed.

Ltac inv_solve :=
  try solve [intuition (first [congruence | lia | discriminate | eauto])].

Lemma Inv_coi_settled p (w : World) : Inv w -> Inv (coi_settled p w).
Proof.
  intros H. unfold coi_settled.
  destruct (promises (dom w) !! p) as [[[]| |]|] eqn:Hp; auto.
  one_promise w H; simpl in Hp; [discriminate|].
  destruct p as [|p]; [|discriminate]. simpl in Hp. injection Hp as ->.
  inv_frame H; inv_solve.
Qed.

Lemma Inv_helpers_settled p loaded (w : World) : Inv w -> Inv (helpers_settled p loaded w).
Proof.
  intros H. unfold helpers_settled.
  destruct (promises (dom w) !! p) as [[[]| |]|] eqn:Hp; auto.
  one_promise w H; simpl in Hp; [discriminate|].
  destruct p as [|p]; [|discriminate]. simpl in Hp. injection Hp as ->.
  destruct loaded; inv_frame H; inv_solve.
Qed.

Lemma Inv_wasm_settled p r (w : World) : Inv w -> Inv (wasm_settled p r w).
Proof.
  intros H. unfold wasm_settled.
  destruct (promises (dom w) !! p) as [[[]| |]|] eqn:Hp; auto.
  one_promise w H; simpl in Hp; [discriminate|].
  destruct p as [|p]; [|discriminate]. simpl in Hp. injection Hp as ->.
  destruct r as [err|m]; inv_frame H; inv_solve.
Qed.

Lemma Inv_loadModel (w : World) : Inv w -> Inv (fst (loadModel w)).
Proof.
  intros H. unfold loadModel. destruct (modelLoaded (ctl w)); [exact H|].
  apply Inv_initialize in H. destruct (initialize w) as [w1 p]. simpl in *.
  inv_frame H.
Qed.

Lemma Inv_loadModel_resume i (w : World) : Inv w -> Inv (loadModel_resume i w).
Proof.
  intros H. unfold loadModel_resume.
  destruct (loadWaiters (dom w) !! i) as [[p|]|]; auto.
  destruct (promises (dom w) !! p) as [[]|]; auto; inv_frame H.
Qed.

Lemma Inv_storeFS t buf (w : World) : Inv w -> Inv (storeFS t buf w).
Proof.
  intros H. unfold storeFS.
  destruct (tr_state <$> transfers (dom w) !! t) as [[]|]; auto.
  destruct (Module_ (ctl w)) eqn:Hm; inv_frame H; inv_solve.
Qed.

Lemma Inv_cbCancel t (w : World) : Inv w -> Inv (cbCancel t w).
Proof.
  intros H. unfold cbCancel.
  destruct (tr_state <$> transfers (dom w) !! t) as [[]|]; auto. inv_frame H.
Qed.

Lemma Inv_startRecording initRet (w : World) : Inv w -> Inv (fst (startRecording initRet w)).
Proof.
  intros H. unfold startRecording.
  destruct (modelLoaded (ctl w)) eqn:Hl; simpl; [|exact H].
  destruct (isRecording (ctl w)) eqn:Hr; simpl; [exact H|].
  unfold ensure_instance.
  destruct (truthy (instance (ctl w))) eqn:Ht.
  - simpl. destruct (Module_ (ctl w)) eqn:Hm; simpl.
    + inv_frame H; inv_solve.
    + inv_frame H; inv_solve.
  - destruct (Module_ (ctl w)) eqn:Hm; simpl; [|exact H].
    assert (Hc : creations w = 0%nat).
    { pose proof (inv_created_once _ H). pose proof (inv_created_instance _ H).
      destruct (decide (creations w = 1%nat)) as [E|E]; [|lia].
      destruct (H1 E) as [|[]]; congruence. }
    pose proof (creations_init_call w initRet) as Hcall.
    destruct (negb (initRet =? 0)%Z) eqn:Hz; simpl; rewrite ?Hm; simpl.
    + apply truthy_Some in Hz. destruct (decide (initRet ≠ 0%Z)); [|done].
      destruct H; constructor; simpl in *; unfold helper_bound, wasm_bound in *;
        auto; unfold creations in *; simpl in *; inv_solve.
    + assert (initRet = 0%Z) as -> by (apply negb_false_iff, Z.eqb_eq in Hz; exact Hz).
      destruct H; constructor; simpl in *; unfold helper_bound, wasm_bound in *;
        auto; unfold creations in *; simpl in *; inv_solve.
Qed.

Lemma Inv_userMedia_granted r (w : World) : Inv w -> Inv (userMedia_granted r w).
Proof.
  intros H. unfold userMedia_granted.
  destruct (req_state <$> deviceRequests (dom w) !! r) as [[]|]; auto. inv_frame H.
Qed.

Lemma Inv_userMedia_denied r e (w : World) : Inv w -> Inv (userMedia_denied r e w).
Proof.
  intros H. unfold userMedia_denied.
  destruct (req_state <$> deviceRequests (dom w) !! r) as [[]|]; auto.
  inv_frame H; inv_solve.
Qed.

Lemma Inv_ondataavailable rid chunk (w : World) : Inv w -> Inv (ondataavailable rid chunk w).
Proof.
  intros H. unfold ondataavailable.
  destruct (recorders (dom w) !! rid); auto. inv_frame H.
Qed.

Lemma Inv_reader_onload j (w : World) : Inv w -> Inv (reader_onload decodeAudioData j w).
Proof.
  intros H. unfold reader_onload.
  destruct (jobs (dom w) !! j) as [[]|]; auto.
  destruct (audioContext (ctl w)); [destruct (decodeAudioData blob)|]; inv_frame H.
Qed.

Lemma Inv_rendering_done j (w : World) : Inv w -> Inv (rendering_done j w).
Proof.
  intros H. unfold rendering_done.
  destruct (jobs (dom w) !! j) as [[]|]; auto. simpl.
  destruct (instance (ctl w)) as [h|] eqn:Hi; simpl.
  - destruct (negb (h =? 0)%Z); [destruct (Module_ (ctl w)) eqn:Hm|];
      inv_frame H; rewrite ?Hi in *; auto.
  - inv_frame H; rewrite ?Hi in *; auto.
Qed.

Lemma Inv_recorder_onstop rid (w : World) : Inv w -> Inv (recorder_onstop rid w).
Proof.
  intros H. unfold recorder_onstop.
  destruct (recorders (dom w) !! rid); auto.
  destruct (isRecording (ctl w)); auto. inv_frame H.
Qed.

Lemma Inv_restart_timer initRet (w : World) : Inv w -> Inv (restart_timer initRet w).
Proof.
  intros H. unfold restart_timer.
  destruct (restartTimers (dom w)); auto.
  apply Inv_startRecording. inv_frame H.
Qed.

Lemma Inv_poll_tick t pulled (w : World) : Inv w -> Inv (poll_tick t pulled w).
Proof.
  intros H. unfold poll_tick.
  destruct (cleared <$> intervals (dom w) !! t) as [[]|]; auto.
  destruct (isRecording (ctl w)); simpl.
  - destruct (Module_ (ctl w)); auto. destruct pulled as [text|]; auto.
    destruct (1 <? length text)%nat; auto. inv_frame H.
  - inv_frame H.
Qed.

Lemma Inv_stopRecording (w : World) : Inv w -> Inv (fst (stopRecording w)).
Proof.
  intros H. unfold stopRecording.
  destruct (isRecording (ctl w)) eqn:Hr; simpl; [|exact H].
  destruct (Module_ (ctl w)) eqn:Hm; simpl; [|exact H].
  destruct (mediaRecorder (ctl w)); simpl;
    destruct (audioContext (ctl w)); inv_frame H; inv_solve.
Qed.

Lemma stopRecording_completion (w : World) :
  snd (stopRecording w) = Returned \/ stopRecording w = (w, Threw NullDereference).
Proof.
  unfold stopRecording. destruct (isRecording (ctl w)); simpl; auto.
  destruct (Module_ (ctl w)); simpl; auto.
Qed.

Lemma stopRecording_flag (w : World) :
  snd (stopRecording w) = Returned -> isRecording (ctl (fst (stopRecording w))) = false.
Proof.
  unfold stopRecording. destruct (isRecording (ctl w)) eqn:Hr; simpl; auto.
  destruct (Module_ (ctl w)); simpl; [|discriminate].
  intros _. destruct (mediaRecorder (ctl w)); simpl;
    destruct (audioContext (ctl w)); reflexivity.
Qed.

Lemma Inv_destroy (w : World) : Inv w -> Inv (fst (destroy w)).
Proof.
  intros H. unfold destroy.
  pose proof (Inv_stopRecording w H) as Hs.
  destruct (stopRecording_completion w) as [Hc|Hc].
  - pose proof (stopRecording_flag w Hc) as Hf.
    destruct (stopRecording w) as [w1 k]. simpl in *. subst k. simpl.
    pose proof (inv_instance_module _ Hs) as Him.
    inv_frame Hs; inv_solve.
  - rewrite Hc. simpl. exact H.
Qed.

Lemma Inv_step (w : World) ev : Inv w -> Inv (step w ev).
Proof.
  destruct ev; simpl;
    auto using Inv_initialize, Inv_coi_settled, Inv_helpers_settled, Inv_wasm_settled,
      Inv_loadModel, Inv_loadModel_resume, Inv_storeFS, Inv_cbCancel, Inv_startRecording,
      Inv_userMedia_granted, Inv_userMedia_denied, Inv_ondataavailable, Inv_reader_onload,
      Inv_rendering_done, Inv_recorder_onstop, Inv_restart_timer, Inv_poll_tick,
      Inv_stopRecording, Inv_destroy.
Qed.

Lemma Inv_run evs (w : World) : Inv w -> Inv (run evs w).
Proof.
  revert w. induction evs as [|ev evs IH]; intros w H; simpl; [exact H|].
  apply IH, Inv_step, H.
Qed.

Lemma Inv_reachable c (w : World) : reachable c w -> Inv w.
Proof. intros [evs ->]. apply Inv_run, Inv_new. Qed.

Lemma run_app evs1 evs2 (w : World) : run (evs1 ++ evs2) w = run evs2 (run evs1 w).
Proof. apply fold_left_app. Qed.

Lemma reachable_new c : reachable c (new_transcriber c).
Proof. exists []. reflexivity. Qed.

Lemma reachable_run c evs (w : World) : reachable c w -> reachable c (run evs w).
Proof. intros [evs0 ->]. exists (evs0 ++ evs). symmetry. apply run_app. Qed.

Lemma reachable_step c ev (w : World) : reachable c w -> reachable c (step w ev).
Proof. apply (reachable_run c [ev]). Qed.

(** *** While recording, an open audio context is held *)




(** *** Every interval timer has the period of the poller *)

Ltac unfold_step :=
  unfold initialize, coi_settled, helpers_settled, wasm_settled, loadModel,
    loadModel_resume, storeFS, cbCancel, userMedia_granted, userMedia_denied,
    ondataavailable, reader_onload, rendering_done, recorder_onstop, restart_timer,
    poll_tick, destroy, stopRecording, startRecording, ensure_instance, initialize,
    startTranscriptionPolling, settle_promise, settle_request, settle_transfer,
    settle_job, stop_recorder, close_context, fire_status in *.

Ltac step_cases ev :=
  destruct ev; simpl; unfold_step; repeat case_match; simplify_eq; simpl in *.

Lemma step_periods (w : World) ev : periods_ok w -> periods_ok (step w ev).
Proof.
  unfold periods_ok. intros H. step_cases ev; auto.
  - apply Forall_app. split; [exact H|]. constructor; [reflexivity|constructor].
  - apply Forall_alter; [exact H|]. intros x Hx. auto.
Qed.

Lemma run_periods evs (w : World) : periods_ok w -> periods_ok (run evs w).
Proof.
  revert w. induction evs as [|ev evs IH]; intros w H; simpl; [exact H|].
  apply IH, step_periods, H.
Qed.

Lemma reachable_periods c (w : World) : reachable c w -> periods_ok w.
Proof. intros [evs ->]. apply run_periods. constructor. Qed.

(** *** The recorder held is a recorder made *)



(** *** A settled promise stays as it is *)

Lemma step_promise_settled (w : World) ev p st :
  is_settled st = true ->
  promises (dom w) !! p = Some st ->
  promises (dom (step w ev)) !! p = Some st.
Proof.
  intros Hst Hp.
  step_cases ev; auto;
    try (apply lookup_app_l_Some; exact Hp);
    try (rewrite list_lookup_insert_ne; [exact Hp|]; intros ->; rewrite Hp in *;
         simplify_eq; discriminate).
Qed.

Lemma run_promise_settled evs (w : World) p st :
  is_settled st = true ->
  promises (dom w) !! p = Some st ->
  promises (dom (run evs w)) !! p = Some st.
Proof.
  intros Hst. revert w. induction evs as [|ev evs IH]; intros w Hp; simpl; [exact Hp|].
  apply IH, step_promise_settled; assumption.
Qed.

(** Once the only bring-up has settled with [this.Module] null, nothing sets
    [this.Module] again, and so nothing loads the model. *)

Lemma step_inert (w : World) ev : Inv w -> inert w -> inert (step w ev).
Proof.
  intros HI [Hm (st & Hst & Hp)]. split.
  - pose proof (inv_one_promise _ HI) as Hlen.
    step_cases ev; auto; try congruence.
    match goal with
    | H : promises _ !! ?p = Some (BringUp StageWasm) |- _ =>
        assert (p = 0%nat) as -> by (apply lookup_lt_Some in H; lia);
        rewrite H in Hp; simplify_eq; discriminate
    end.
  - exists st. split; [exact Hst|]. apply step_promise_settled; assumption.
Qed.

Lemma run_inert evs (w : World) : Inv w -> inert w -> inert (run evs w).
Proof.
  revert w. induction evs as [|ev evs IH]; intros w HI Hin; simpl; [exact Hin|].
  apply IH; [apply Inv_step, HI|apply step_inert; assumption].
Qed.

Lemma inert_not_loaded (w : World) : Inv w -> inert w -> modelLoaded (ctl w) = false.
Proof.
  intros HI [Hm _]. destruct (modelLoaded (ctl w)) eqn:Hl; [|reflexivity].
  apply (inv_loaded_module _ HI) in Hl. contradiction.
Qed.

Lemma not_loaded_not_recording (w : World) :
  Inv w -> modelLoaded (ctl w) = false -> isRecording (ctl w) = false.
Proof.
  intros HI Hl. destruct (isRecording (ctl w)) eqn:Hr; [|reflexivity].
  apply (inv_recording_loaded _ HI) in Hr. congruence.
Qed.

(** *** Every call of initialize() is answered *)

Lemma step_initReturns (w : World) ev :
  (length (initReturns (obs w)) + (if is_initialize ev then 1 else 0)
   <= length (initReturns (obs (step w ev))))%nat.
Proof. step_cases ev; rewrite ?length_app; simpl; lia. Qed.

Lemma run_initReturns evs (w : World) :
  (length (initReturns (obs w)) + length (filter (fun ev => is_initialize ev = true) evs)
   <= length (initReturns (obs (run evs w))))%nat.
Proof.
  revert w. induction evs as [|ev evs IH]; intros w; simpl; [lia|].
  pose proof (step_initReturns w ev) as Hs. pose proof (IH (step w ev)) as Hr.
  rewrite filter_cons. destruct (decide (is_initialize ev = true)) as [E|E]; simpl.
  - rewrite E in Hs. lia.
  - lia.
Qed.

(** *** One segment, from the chunk to the feed *)

Lemma deliver_one (w : World) rid rc chunk h :
  audio0 (ctl w) = None ->
  Module_ (ctl w) <> None ->
  recorders (dom w) !! rid = Some rc ->
  audioContext (ctl w) <> None ->
  instance (ctl w) = Some h ->
  h <> 0%Z ->
  let w' := run (deliver rid (length (jobs (dom w))) chunk) w in
  feeds (eng w')
  = feeds (eng w) ++ option_list (fed decodeAudioData h (concat (rec_chunks rc ++ [chunk]))) /\
  recorders (dom w') !! rid
  = Some (MkRecorder (rec_chunks rc ++ [chunk]) (rec_timeslice rc) (rec_stopped rc)) /\
  length (jobs (dom w')) = S (length (jobs (dom w))) /\
  audio0 (ctl w') = None /\
  Module_ (ctl w') = Module_ (ctl w) /\
  audioContext (ctl w') = audioContext (ctl w) /\
  instance (ctl w') = instance (ctl w).
Proof.
  intros Ha0 Hm Hrec Hctx Hi Hh.
  destruct w as [c d e o]. simpl in *.
  assert (Hlt : (rid < length (recorders d))%nat) by (eapply lookup_lt_Some; eauto).
  unfold deliver, run, fed. simpl. unfold ondataavailable. simpl. rewrite Hrec. simpl.
  unfold reader_onload. simpl. rewrite list_lookup_middle by reflexivity.
  destruct (audioContext c) as [a|] eqn:Ha; [|contradiction].
  destruct (decodeAudioData (concat (rec_chunks rc ++ [chunk]))) as [rendered|] eqn:Hd;
    simpl.
  - unfold rendering_done, settle_job. simpl.
    rewrite list_lookup_insert_eq by (rewrite length_app; simpl; lia).
    simpl. rewrite Ha0, Hi. simpl.
    destruct (negb (h =? 0)%Z) eqn:Hz.
    + destruct (Module_ c) eqn:Hmc; [|contradiction]. simpl.
      rewrite !length_insert, length_app, list_lookup_insert_eq by exact Hlt.
      simpl. repeat split; auto. lia.
    + apply negb_false_iff, Z.eqb_eq in Hz. contradiction.
  - unfold rendering_done, settle_job. simpl.
    rewrite list_lookup_insert_eq by (rewrite length_app; simpl; lia).
    simpl. rewrite length_insert, length_app, list_lookup_insert_eq by exact Hlt.
    simpl. rewrite app_nil_r. repeat split; auto. lia.
Qed.

Lemma cumulative_blobs_lookup held chunks k :
  (k < length chunks)%nat ->
  cumulative_blobs held chunks !! k = Some (concat (held ++ take (S k) chunks)).
Proof.
  revert held k. induction chunks as [|chunk rest IH]; intros held k Hk; simpl in *; [lia|].
  destruct k as [|k]; simpl.
  - rewrite take_0. reflexivity.
  - rewrite IH by lia. rewrite <- app_assoc. reflexivity.
Qed.

Lemma deliver_all chunks : forall (w : World) rid rc h,
  audio0 (ctl w) = None ->
  Module_ (ctl w) <> None ->
  recorders (dom w) !! rid = Some rc ->
  audioContext (ctl w) <> None ->
  instance (ctl w) = Some h ->
  h <> 0%Z ->
  feeds (eng (run (deliver_in_order rid (length (jobs (dom w))) chunks) w))
  = feeds (eng w) ++ omap (fed decodeAudioData h) (cumulative_blobs (rec_chunks rc) chunks).
Proof.
  induction chunks as [|chunk rest IH]; intros w rid rc h Ha0 Hm Hrec Hctx Hi Hh.
  - simpl. rewrite app_nil_r. reflexivity.
  - cbn [deliver_in_order cumulative_blobs]. rewrite run_app.
    destruct (deliver_one w rid rc chunk h Ha0 Hm Hrec Hctx Hi Hh)
      as (Hf & Hr & Hj & Ha0' & Hm' & Hctx' & Hi').
    set (w1 := run (deliver rid (length (jobs (dom w))) chunk) w) in *.
    rewrite <- Hj.
    rewrite (IH w1 rid _ h Ha0' ltac:(congruence) Hr ltac:(congruence) ltac:(congruence) Hh).
    rewrite Hf. simpl. rewrite <- app_assoc. f_equal.
    destruct (fed decodeAudioData h (concat (rec_chunks rc ++ [chunk]))); reflexivity.
Qed.

Lemma omap_lookup_total {A B} (f : A -> option B) (l : list A) k a :
  Forall (fun x => is_Some (f x)) l ->
  l !! k = Some a ->
  omap f l !! k = f a.
Proof.
  intros Hall. revert k. induction Hall as [|x l [b Hb] Hall IH]; intros k Hk.
  - discriminate.
  - simpl. rewrite Hb. destruct k as [|k]; simpl in *.
    + injection Hk as <-. symmetry. exact Hb.
    + apply IH, Hk.
Qed.

(** *** After the bring-up has settled no script is loaded again *)

Lemma step_loads_settled (w : World) ev st :
  Inv w ->
  is_settled st = true ->
  promises (dom w) !! 0%nat = Some st ->
  coiLoads (dom (step w ev)) = coiLoads (dom w) /\
  helperLoads (dom (step w ev)) = helperLoads (dom w) /\
  wasmLoads (dom (step w ev)) = wasmLoads (dom w).
Proof.
  intros HI Hst Hp.
  pose proof (inv_one_promise _ HI) as Hlen. pose proof (inv_no_promise _ HI) as Hno.
  step_cases ev; auto;
    try (rewrite Hno in Hp by done; discriminate);
    match goal with
    | H : promises _ !! ?p = Some (BringUp _) |- _ =>
        assert (p = 0%nat) as -> by (apply lookup_lt_Some in H; lia);
        rewrite H in Hp; simplify_eq; discriminate
    end.
Qed.

Lemma run_loads_settled evs (w : World) st :
  Inv w ->
  is_settled st = true ->
  promises (dom w) !! 0%nat = Some st ->
  coiLoads (dom (run evs w)) = coiLoads (dom w) /\
  helperLoads (dom (run evs w)) = helperLoads (dom w) /\
  wasmLoads (dom (run evs w)) = wasmLoads (dom w).
Proof.
  intros HI Hst. revert w HI. induction evs as [|ev evs IH]; intros w HI Hp; simpl; [auto|].
  destruct (step_loads_settled w ev st HI Hst Hp) as (E1 & E2 & E3).
  destruct (IH (step w ev)) as (F1 & F2 & F3).
  - apply Inv_step, HI.
  - apply step_promise_settled; assumption.
  - repeat split; congruence.
Qed.

Lemma promise_index (w : World) p st : Inv w -> promises (dom w) !! p = Some st -> p = 0%nat.
Proof.
  intros HI Hp. pose proof (inv_one_promise _ HI). apply lookup_lt_Some in Hp. lia.
Qed.

Lemma promise_kept (w : World) p st :
  Inv w -> promises (dom w) !! p = Some st -> initPromise (ctl w) = Some p.
Proof.
  intros HI Hp. pose proof (promise_index w p st HI Hp) as ->.
  destruct (initPromise (ctl w)) as [q|] eqn:Hq.
  - pose proof (inv_promise_bound _ HI q Hq). pose proof (inv_one_promise _ HI).
    f_equal. lia.
  - rewrite (inv_no_promise _ HI Hq) in Hp. discriminate.
Qed.

Lemma initialize_kept (w : World) p :
  initPromise (ctl w) = Some p ->
  snd (initialize w) = p /\
  ctl (fst (initialize w)) = ctl w /\ dom (fst (initialize w)) = dom w /\
  eng (fst (initialize w)) = eng w.
Proof. intros Hp. unfold initialize. rewrite Hp. simpl. auto. Qed.

(** *** stopRecording and destroy return *)

Lemma recording_module (w : World) :
  Inv w -> isRecording (ctl w) = true -> Module_ (ctl w) <> None.
Proof. intros HI Hr. apply (inv_loaded_module _ HI), (inv_recording_loaded _ HI), Hr. Qed.

Lemma stopRecording_returns (w : World) : Inv w -> snd (stopRecording w) = Returned.
Proof.
  intros HI. unfold stopRecording.
  destruct (isRecording (ctl w)) eqn:Hr; simpl; [|reflexivity].
  pose proof (recording_module w HI Hr) as Hm.
  destruct (Module_ (ctl w)); [reflexivity|contradiction].
Qed.

Lemma destroy_returns (w : World) :
  Inv w ->
  destroy w =
  (on_ctl (fun c => set_modelLoaded false (set_Module_ None (set_instance None c)))
     (fst (stopRecording w)), Returned).
Proof.
  intros HI. unfold destroy. pose proof (stopRecording_returns w HI) as Hs.
  destruct (stopRecording w) as [w1 k]. simpl in *. subst k. reflexivity.
Qed.

(** *** Only destroy releases the engine instance *)


Lemma startRecording_awaiting (w : World) initRet w' r :
  startRecording initRet w = (w', AwaitingDevice r) ->
  modelLoaded (ctl w) = true /\ isRecording (ctl w) = false /\
  truthy (instance (ctl w')) = true /\ isRecording (ctl w') = true /\
  r = length (deviceRequests (dom w)) /\
  audioContext (ctl w') = Some (length (contexts (dom w))) /\
  contexts (dom w') =
    contexts (dom w) ++ [MkContext (recordingContextOptions (config (ctl w))) false] /\
  deviceRequests (dom w') =
    deviceRequests (dom w) ++ [MkDeviceRequest userMediaConstraints RequestPending] /\
  statusLog (obs w') = statusLog (obs w) ++ ["Recording..."] /\
  Module_ (ctl w') <> None.
Proof.
  unfold startRecording, ensure_instance.
  destruct (modelLoaded (ctl w)); simpl; [|discriminate].
  destruct (isRecording (ctl w)); simpl; [discriminate|].
  destruct (truthy (instance (ctl w))) eqn:Ht; simpl.
  - destruct (Module_ (ctl w)) eqn:Hm; simpl; [|discriminate].
    intros [= <- <-]. simpl. repeat split; auto. congruence.
  - destruct (Module_ (ctl w)) eqn:Hm; simpl; [|discriminate].
    destruct (negb (initRet =? 0)%Z) eqn:Hz; simpl; [|discriminate].
    rewrite Hm. intros [= <- <-]. simpl. repeat split; auto. congruence.
Qed.

(** ** The claims *)

(** C1. In a recording span whose segments are delivered in order, each
    chunk being appended to the chunks held before the whole is decoded, the
    buffer fed to the engine after the k-th segment is the decoding of the
    cumulative raw buffer of the first k segments: the feeds of the span are
    the decodings of the successive cumulative buffers, one per segment, not
    their concatenation. *)
Theorem in_order_feeds_are_cumulative c (w : World) rid rc h chunks :
  reachable c w ->
  recorders (dom w) !! rid = Some rc ->
  audioContext (ctl w) <> None ->
  instance (ctl w) = Some h ->
  h <> 0%Z ->
  let w' := run (deliver_in_order rid (length (jobs (dom w))) chunks) w in
  let blobs := cumulative_blobs (rec_chunks rc) chunks in
  feeds (eng w') = feeds (eng w) ++ omap (fed decodeAudioData h) blobs /\
  (forall k, (k < length chunks)%nat ->
     blobs !! k = Some (concat (rec_chunks rc ++ take (S k) chunks))) /\
  (Forall (fun blob => is_Some (decodeAudioData blob)) blobs ->
   forall k blob, blobs !! k = Some blob ->
     exists rendered,
       decodeAudioData blob = Some rendered /\
       feeds (eng w') !! (length (feeds (eng w)) + k)%nat = Some (h, rendered)).
Proof.
  intros Hreach Hrec Hctx Hi Hh w' blobs.
  pose proof (Inv_reachable c w Hreach) as HI.
  assert (Hm : Module_ (ctl w) <> None).
  { apply (inv_instance_module _ HI). rewrite Hi. apply truthy_Some, Hh. }
  assert (Hfeeds : feeds (eng w') = feeds (eng w) ++ omap (fed decodeAudioData h) blobs).
  { apply deliver_all; auto. apply (inv_audio0 _ HI). }
  split; [exact Hfeeds|]. split.
  - intros k Hk. apply cumulative_blobs_lookup, Hk.
  - intros Hall k blob Hk.
    assert (Hdec : is_Some (decodeAudioData blob)).
    { rewrite Forall_lookup in Hall. eapply Hall, Hk. }
    destruct Hdec as [rendered Hdec]. exists rendered. split; [exact Hdec|].
    rewrite Hfeeds, lookup_app_r by lia.
    replace (length (feeds (eng w)) + k - length (feeds (eng w)))%nat with k by lia.
    rewrite (omap_lookup_total (fed decodeAudioData h) blobs k blob).
    + unfold fed. rewrite Hdec. reflexivity.
    + eapply Forall_impl; [exact Hall|]. intros x [y Hy]. exists (h, y).
      unfold fed. rewrite Hy. reflexivity.
    + exact Hk.
Qed.

(** C2. Whatever the calls of initialize() and however they overlap with
    the callbacks of the bring-up, loadCOIServiceWorker, loadHelpers and
    loadWasmModule each run at most once, every call is answered, and all
    the calls are answered with one and the same promise, which is the one
    the controller keeps; once settled that promise does not change. *)
Theorem initialize_is_memoized c evs :
  let w : World := run evs (new_transcriber c) in
  ((coiLoads (dom w) <= 1)%nat /\ (helperLoads (dom w) <= 1)%nat /\
   (wasmLoads (dom w) <= 1)%nat) /\
  (length (filter (fun ev => is_initialize ev = true) evs)
   <= length (initReturns (obs w)))%nat /\
  (forall p q, p ∈ initReturns (obs w) -> q ∈ initReturns (obs w) -> p = q) /\
  (forall p, p ∈ initReturns (obs w) ->
     initPromise (ctl w) = Some p /\ is_Some (promises (dom w) !! p)) /\
  (forall p st later, p ∈ initReturns (obs w) ->
     promises (dom w) !! p = Some st -> is_settled st = true ->
     promises (dom (run later w)) !! p = Some st).
Proof.
  intros w.
  assert (HI : Inv w) by (apply Inv_run, Inv_new).
  pose proof (inv_one_promise _ HI) as H1. pose proof (inv_coi _ HI) as H2.
  pose proof (inv_helpers _ HI) as H3. pose proof (inv_wasm _ HI) as H4.
  repeat split.
  - lia.
  - unfold helper_bound in H3. repeat case_match; lia.
  - unfold wasm_bound in H4. repeat case_match; lia.
  - pose proof (run_initReturns evs (new_transcriber c)) as Hc. simpl in Hc. exact Hc.
  - intros p q Hp Hq. apply (inv_returns _ HI) in Hp, Hq. congruence.
  - apply (inv_returns _ HI). assumption.
  - apply lookup_lt_is_Some_2, (inv_promise_bound _ HI), (inv_returns _ HI). assumption.
  - intros. apply run_promise_settled; assumption.
Qed.

(** C3, as the code has it. When the bring-up run by initialize() fails,
    the memoized promise is rejected, [this.Module] stays null and the model
    stays unloaded; the rejected promise is kept: every later call of
    initialize() returns it, no script of the bring-up is loaded again, and
    the runtime and the model stay unloaded whatever happens next. *)
Theorem failed_bring_up_is_kept c (w : World) p e :
  reachable c w ->
  promises (dom w) !! p = Some (InitRejected e) ->
  (initPromise (ctl w) = Some p /\ Module_ (ctl w) = None /\ modelLoaded (ctl w) = false) /\
  forall later,
    let w' := run later w in
    snd (initialize w') = p /\
    promises (dom (fst (initialize w'))) !! p = Some (InitRejected e) /\
    coiLoads (dom (fst (initialize w'))) = coiLoads (dom w) /\
    helperLoads (dom (fst (initialize w'))) = helperLoads (dom w) /\
    wasmLoads (dom (fst (initialize w'))) = wasmLoads (dom w) /\
    Module_ (ctl w') = None /\
    modelLoaded (ctl w') = false.
Proof.
  intros Hreach Hp.
  pose proof (Inv_reachable c w Hreach) as HI.
  pose proof (promise_kept w p _ HI Hp) as Hkept.
  pose proof (promise_index w p _ HI Hp) as ->.
  assert (Hm : Module_ (ctl w) = None).
  { destruct (Module_ (ctl w)) eqn:Hm; [|reflexivity].
    assert (Module_ (ctl w) <> None) as Hne by congruence.
    apply (inv_module_fulfilled _ HI) in Hne. congruence. }
  assert (Hin : inert w).
  { split; [exact Hm|]. exists (InitRejected e). split; [reflexivity|exact Hp]. }
  split.
  - split; [exact Hkept|]. split; [exact Hm|]. apply inert_not_loaded; assumption.
  - intros later w'.
    assert (HI' : Inv w') by (apply Inv_run, HI).
    assert (Hp' : promises (dom w') !! 0%nat = Some (InitRejected e))
      by (apply run_promise_settled; auto).
    pose proof (promise_kept w' _ _ HI' Hp') as Hkept'.
    destruct (initialize_kept w' _ Hkept') as (E1 & E2 & E3 & E4).
    destruct (run_loads_settled later w (InitRejected e) HI eq_refl Hp) as (L1 & L2 & L3).
    pose proof (run_inert later w HI Hin) as Hin'.
    rewrite E3. repeat split; auto.
    + apply Hin'.
    + apply inert_not_loaded; assumption.
Qed.

(** C4. In every reachable state in which the model is not loaded,
    startRecording() throws the model-not-loaded error and changes nothing:
    no device is requested, init is not called, and the recording flag is
    and stays false. In every reachable state in which recording is in
    progress, startRecording() returns and changes nothing. *)
Theorem startRecording_guards c (w : World) initRet :
  reachable c w ->
  (modelLoaded (ctl w) = false ->
     startRecording initRet w = (w, Threw ModelNotLoaded) /\
     deviceRequests (dom (fst (startRecording initRet w))) = deviceRequests (dom w) /\
     initCalls (eng (fst (startRecording initRet w))) = initCalls (eng w) /\
     instance (ctl (fst (startRecording initRet w))) = instance (ctl w) /\
     isRecording (ctl w) = false /\
     isRecording (ctl (fst (startRecording initRet w))) = false) /\
  (isRecording (ctl w) = true -> startRecording initRet w = (w, Returned)).
Proof.
  intros Hreach. pose proof (Inv_reachable c w Hreach) as HI. split.
  - intros Hl. pose proof (not_loaded_not_recording w HI Hl) as Hr.
    unfold startRecording. rewrite Hl. simpl. repeat split; auto.
  - intros Hr. pose proof (inv_recording_loaded _ HI Hr) as Hl.
    unfold startRecording. rewrite Hl, Hr. reflexivity.
Qed.



(** C7, as the code has it. destroy() returns in every reachable state, in
    particular after stopRecording(); afterwards the recording flag is
    false, the instance handle and [this.Module] are null and the model is
    unloaded, so that startRecording() throws the model-not-loaded error.
    destroy() keeps the memoized promise of initialize(): if the bring-up
    had settled, every later initialize() returns that promise, no script is
    loaded again, [this.Module] stays null, the model stays unloaded and
    startRecording() keeps throwing, whatever is called. *)
Theorem destroy_is_safe_and_final c (w : World) :
  reachable c w ->
  snd (destroy w) = Returned /\
  snd (destroy (fst (stopRecording w))) = Returned /\
  (let w' := fst (destroy w) in
   isRecording (ctl w') = false /\ instance (ctl w') = None /\
   Module_ (ctl w') = None /\ modelLoaded (ctl w') = false /\
   initPromise (ctl w') = initPromise (ctl w) /\
   forall initRet, startRecording initRet w' = (w', Threw ModelNotLoaded)) /\
  (forall st,
     promises (dom w) !! 0%nat = Some st -> is_settled st = true ->
     forall later,
       let w'' := run later (fst (destroy w)) in
       snd (initialize w'') = 0%nat /\
       promises (dom (fst (initialize w''))) !! 0%nat = Some st /\
       coiLoads (dom (fst (initialize w''))) = coiLoads (dom w) /\
       helperLoads (dom (fst (initialize w''))) = helperLoads (dom w) /\
       wasmLoads (dom (fst (initialize w''))) = wasmLoads (dom w) /\
       Module_ (ctl w'') = None /\
       modelLoaded (ctl w'') = false /\
       isRecording (ctl w'') = false /\
       forall initRet, startRecording initRet w'' = (w'', Threw ModelNotLoaded)).
Proof.
  intros Hreach. pose proof (Inv_reachable c w Hreach) as HI.
  pose proof (Inv_stopRecording w HI) as HIs.
  pose proof (Inv_destroy w HI) as HId.
  assert (Hthrow : forall (v : World) initRet,
            modelLoaded (ctl v) = false -> startRecording initRet v = (v, Threw ModelNotLoaded)).
  { intros v initRet Hl. unfold startRecording. rewrite Hl. reflexivity. }
  assert (Hfields : Module_ (ctl (fst (destroy w))) = None /\
                    modelLoaded (ctl (fst (destroy w))) = false /\
                    instance (ctl (fst (destroy w))) = None /\
                    initPromise (ctl (fst (destroy w))) = initPromise (ctl w) /\
                    dom (fst (destroy w)) = dom (fst (stopRecording w))).
  { rewrite (destroy_returns w HI). simpl. repeat split; auto.
    unfold stopRecording. repeat case_match; reflexivity. }
  destruct Hfields as (Dm & Dl & Di & Dp & Dd).
  split; [rewrite (destroy_returns w HI); reflexivity|].
  split; [rewrite (destroy_returns _ HIs); reflexivity|].
  split.
  - simpl. repeat split; auto. apply not_loaded_not_recording; assumption.
  - intros st Hp Hst later w''.
    assert (Hp' : promises (dom (fst (destroy w))) !! 0%nat = Some st).
    { change (fst (destroy w)) with (step w CallDestroy).
      apply step_promise_settled; assumption. }
    assert (Hin : inert (fst (destroy w))) by (split; [exact Dm|eauto]).
    assert (HI'' : Inv w'') by (apply Inv_run, HId).
    pose proof (run_inert later _ HId Hin) as Hin''.
    assert (Hp'' : promises (dom w'') !! 0%nat = Some st)
      by (apply run_promise_settled; assumption).
    pose proof (promise_kept w'' _ _ HI'' Hp'') as Hkept.
    destruct (initialize_kept w'' _ Hkept) as (E1 & E2 & E3 & E4).
    destruct (run_loads_settled later _ st HId Hst Hp') as (L1 & L2 & L3).
    destruct (step_loads_settled w CallDestroy st HI Hst Hp) as (M1 & M2 & M3).
    simpl in M1, M2, M3. fold w'' in L1, L2, L3, Hin''.
    pose proof (inert_not_loaded w'' HI'' Hin'') as Hl.
    rewrite E3. repeat split; auto; try congruence.
    + apply Hin''.
    + apply not_loaded_not_recording; assumption.
Qed.

(** C8. Every interval timer of a reachable state has a period of 100 ms.
    A tick of a live timer while the recording flag is true pulls the
    transcript and hands the pulled text, as it is, to onTranscription
    exactly when it is not null and longer than one character (its length,
    which JavaScript counts in UTF-16 code units, is greater than 1), and changes
    nothing else; the first tick while the flag is false clears the timer
    and calls nothing; a cleared timer does nothing. With a runtime that
    answers "hello" and then the empty string, one callback fires, with
    "hello". *)
Theorem poller_forwards_and_stops c (w : World) t tm :
  reachable c w ->
  intervals (dom w) !! t = Some tm ->
  period_ms tm = 100%Z /\
  (cleared tm = false -> isRecording (ctl w) = true ->
   forall pulled,
     let w' := poll_tick t pulled w in
     (forall text, pulled = Some text -> (1 < length text)%nat ->
        transcriptions (obs w') = transcriptions (obs w) ++ [text]) /\
     ((pulled = None \/ exists text, pulled = Some text /\ (length text <= 1)%nat) ->
        transcriptions (obs w') = transcriptions (obs w)) /\
     ctl w' = ctl w /\ dom w' = dom w /\ eng w' = eng w /\
     statusLog (obs w') = statusLog (obs w)) /\
  (cleared tm = false -> isRecording (ctl w) = false ->
   forall pulled,
     let w' := poll_tick t pulled w in
     intervals (dom w') !! t = Some (MkInterval (period_ms tm) true) /\
     obs w' = obs w /\ ctl w' = ctl w /\ eng w' = eng w) /\
  (cleared tm = true -> forall pulled, poll_tick t pulled w = w) /\
  (cleared tm = false -> isRecording (ctl w) = true ->
   transcriptions
     (obs (run [PollTick t (Some hello); PollTick t (Some []);
                PollTick t (Some [])] w))
   = transcriptions (obs w) ++ [hello]).
Proof.
  intros Hreach Ht. pose proof (Inv_reachable c w Hreach) as HI.
  pose proof (reachable_periods c w Hreach) as Hper.
  split.
  { unfold periods_ok in Hper. rewrite Forall_lookup in Hper. eapply Hper, Ht. }
  split; [|split; [|split]].
  - intros Hc Hr pulled w'. subst w'.
    pose proof (recording_module w HI Hr) as Hm.
    unfold poll_tick. rewrite Ht. simpl. rewrite Hc, Hr. simpl.
    destruct (Module_ (ctl w)); [|contradiction].
    destruct pulled as [text|].
    + destruct (1 <? length text)%nat eqn:Hlen.
      * apply Nat.ltb_lt in Hlen. simpl. repeat split; auto.
        -- intros text' [= <-] _. reflexivity.
        -- intros [Hn|(text' & [= <-] & Hle)]; [discriminate|lia].
      * apply Nat.ltb_ge in Hlen. repeat split; auto.
        intros text' [= <-] Hlt. lia.
    + repeat split; auto. intros text [=].
  - intros Hc Hr pulled w'. subst w'.
    unfold poll_tick. rewrite Ht. simpl. rewrite Hc, Hr. simpl.
    rewrite list_lookup_alter_eq, Ht. simpl. auto.
  - intros Hc pulled. unfold poll_tick. rewrite Ht. simpl. rewrite Hc. reflexivity.
  - intros Hc Hr.
    pose proof (recording_module w HI Hr) as Hm.
    unfold run. simpl. unfold poll_tick. rewrite Ht. simpl. rewrite Hc, Hr. simpl.
    destruct (Module_ (ctl w)) eqn:Hmm; [|contradiction]. simpl.
    rewrite Ht. simpl. rewrite Hc, Hr, Hmm. simpl.
    rewrite Ht. simpl. rewrite Hc, Hr, Hmm. simpl. reflexivity.
Qed.



(** ** Further properties of the code *)

(** *** The constructor (index.ts, 38-52) *)

Lemma MODEL_URLS_nonempty m : MODEL_URLS m <> EmptyString.
Proof. destruct m; discriminate. Qed.

Lemma or_string_truthy a b : b <> EmptyString -> or_string a b <> EmptyString.
Proof.
  intros Hb. unfold or_string. destruct a as [s|]; [|exact Hb].
  destruct (String.eqb s EmptyString) eqn:E; [exact Hb|].
  apply String.eqb_neq in E. exact E.
Qed.

Lemma or_number_truthy a b : b <> 0%Z -> or_number a b <> 0%Z.
Proof.
  intros Hb. unfold or_number. destruct a as [n|]; [|exact Hb].
  destruct (Z.eqb n 0) eqn:E; [exact Hb|]. apply Z.eqb_neq in E. exact E.
Qed.

Lemma resolve_config_truthy (c : WhisperConfig) :
  modelUrl (resolve_config c) <> EmptyString /\
  sampleRate (resolve_config c) <> 0%Z /\
  audioIntervalMs (resolve_config c) <> 0%Z.
Proof.
  destruct c as [u m r i d]. simpl. repeat split.
  - apply or_string_truthy, MODEL_URLS_nonempty.
  - apply or_number_truthy. discriminate.
  - apply or_number_truthy. discriminate.
Qed.

(** The resolved configuration has no falsy setting: the model URL is not
    empty and the sample rate and the interval are not zero, whatever the
    options; an option that is given and truthy is kept, one that is missing
    or falsy gets the default (the URL of the resolved model size, 16000,
    5000, base-en-q5_1). *)
Theorem resolve_config_defaults (c : WhisperConfig) :
  (modelUrl (resolve_config c) <> EmptyString /\
   sampleRate (resolve_config c) <> 0%Z /\
   audioIntervalMs (resolve_config c) <> 0%Z) /\
  (forall u, cfg_modelUrl c = Some u -> u <> EmptyString -> modelUrl (resolve_config c) = u) /\
  (forall n, cfg_sampleRate c = Some n -> n <> 0%Z -> sampleRate (resolve_config c) = n) /\
  (forall n, cfg_audioIntervalMs c = Some n -> n <> 0%Z ->
     audioIntervalMs (resolve_config c) = n) /\
  (cfg_modelUrl c = None \/ cfg_modelUrl c = Some EmptyString ->
     modelUrl (resolve_config c) = MODEL_URLS (modelSize (resolve_config c))) /\
  (cfg_sampleRate c = None \/ cfg_sampleRate c = Some 0%Z ->
     sampleRate (resolve_config c) = 16000%Z) /\
  (cfg_audioIntervalMs c = None \/ cfg_audioIntervalMs c = Some 0%Z ->
     audioIntervalMs (resolve_config c) = 5000%Z) /\
  (cfg_modelSize c = None -> modelSize (resolve_config c) = BaseEnQ51) /\
  (forall m, cfg_modelSize c = Some m -> modelSize (resolve_config c) = m).
Proof.
  split; [apply resolve_config_truthy|].
  destruct c as [u m r i d]. simpl. repeat split.
  - intros u' [= ->] Hu. simpl. apply String.eqb_neq in Hu. rewrite Hu. reflexivity.
  - intros n [= ->] Hn. simpl. apply Z.eqb_neq in Hn. rewrite Hn. reflexivity.
  - intros n [= ->] Hn. simpl. apply Z.eqb_neq in Hn. rewrite Hn. reflexivity.
  - intros [-> | ->]; reflexivity.
  - intros [-> | ->]; reflexivity.
  - intros [-> | ->]; reflexivity.
  - intros ->. reflexivity.
  - intros m' [= ->]. reflexivity.
Qed.

(** *** Everything is made from the resolved configuration *)

Lemma step_follows_config c (w : World) ev :
  stores_follow_config c w -> stores_follow_config c (step w ev).
Proof.
  intros [Hc Ht Hx Hr].
  step_cases ev; constructor; simpl; auto;
    repeat match goal with
    | |- Forall _ (_ ++ [_]) => apply Forall_app; split; [assumption|]
    | |- Forall _ [_] => constructor; [simpl; rewrite ?Hc; auto|constructor]
    | |- Forall _ (alter _ _ _) => apply Forall_alter; [assumption|]; intros ? ?; simpl; auto
    | |- Forall _ (<[_:=_]> _) => apply Forall_insert; [assumption|]; simpl
    end; auto.
  eapply (proj1 (Forall_lookup _ _) Hr); eassumption.
Qed.

Lemma reachable_follows_config c (w : World) : reachable c w -> stores_follow_config c w.
Proof.
  intros [evs ->].
  assert (forall w0 : World, stores_follow_config c w0 -> stores_follow_config c (run evs w0))
    as Hrun.
  { induction evs as [|ev evs IH]; intros w0 H0; simpl; [exact H0|].
    apply IH, step_follows_config, H0. }
  apply Hrun. constructor; simpl; constructor.
Qed.

(** In every reachable state the configuration is the one the constructor
    resolved; every call of loadRemote was made with the resolved URL, the
    file name whisper.bin and the size of the resolved model size (also
    when the URL was given explicitly); every audio context was created with
    the resolved sample rate and every media recorder started with the
    resolved interval, neither of which is zero. *)
Theorem stores_made_from_config c (w : World) :
  reachable c w ->
  config (ctl w) = resolve_config c /\
  (forall i t, transfers (dom w) !! i = Some t ->
     tr_url t = modelUrl (resolve_config c) /\
     tr_dst t = "whisper.bin" /\
     tr_size_mb t = MODEL_SIZES (default BaseEnQ51 (cfg_modelSize c))) /\
  (forall a x, contexts (dom w) !! a = Some x ->
     ctx_sampleRate (ctx_options x) = sampleRate (resolve_config c) /\
     ctx_sampleRate (ctx_options x) <> 0%Z) /\
  (forall r x, recorders (dom w) !! r = Some x ->
     rec_timeslice x = audioIntervalMs (resolve_config c) /\
     rec_timeslice x <> 0%Z).
Proof.
  intros Hreach. destruct (reachable_follows_config c w Hreach) as [Hc Ht Hx Hr].
  destruct (resolve_config_truthy c) as (_ & Hs & Hi).
  split; [exact Hc|]. split; [|split].
  - intros i t Hi'. apply (proj1 (Forall_lookup _ _) Ht i t Hi').
  - intros a x Ha. pose proof (proj1 (Forall_lookup _ _) Hx a x Ha) as E.
    simpl in E. rewrite E. simpl. split; [reflexivity|exact Hs].
  - intros r x Hr'. pose proof (proj1 (Forall_lookup _ _) Hr r x Hr') as E.
    simpl in E. rewrite E. split; [reflexivity|exact Hi].
Qed.

(** *** Nothing happens before the runtime is ready *)

Lemma step_quiet (w : World) ev : Inv w -> quiet_until_ready w -> quiet_until_ready (step w ev).
Proof.
  intros HI HQ Hnot.
  assert (Hn : promises (dom w) !! 0%nat <> Some InitFulfilled).
  { intros E. apply Hnot. apply step_promise_settled; [reflexivity|exact E]. }
  destruct (HQ Hn) as (Q1 & Q2 & Q3 & Q4 & Q5).
  pose proof (inv_one_promise _ HI) as Hlen.
  assert (Hm : Module_ (ctl w) = None).
  { destruct (Module_ (ctl w)) eqn:E; [|reflexivity].
    exfalso. apply Hn, (inv_module_fulfilled _ HI). congruence. }
  assert (Hl : modelLoaded (ctl w) = false).
  { destruct (modelLoaded (ctl w)) eqn:E; [|reflexivity].
    apply (inv_loaded_module _ HI) in E. contradiction. }
  pose proof (not_loaded_not_recording w HI Hl) as Hr.
  destruct ev; simpl; unfold_step; simpl;
    rewrite ?Q1, ?Q2, ?Hl, ?Hr, ?Hm; simpl; rewrite ?Hl; simpl;
    repeat case_match; simplify_eq; simpl in *; auto; try congruence.
  all: exfalso;
    match goal with
    | H : promises _ !! ?p = Some _ |- _ =>
        assert (p = 0%nat) as -> by (apply lookup_lt_Some in H; lia)
    end;
    try congruence; apply Hnot;
    unfold wasm_settled, settle_promise, fire_status;
    match goal with H : promises _ !! _ = Some _ |- _ => rewrite H end; simpl;
    apply list_lookup_insert_eq; eapply lookup_lt_Some; eassumption.
Qed.

Lemma reachable_quiet c (w : World) : reachable c w -> quiet_until_ready w.
Proof.
  intros [evs ->].
  assert (forall w0 : World, Inv w0 -> quiet_until_ready w0 -> quiet_until_ready (run evs w0))
    as Hrun.
  { induction evs as [|ev evs IH]; intros w0 HI0 H0; simpl; [exact H0|].
    apply IH; [apply Inv_step, HI0|apply step_quiet; assumption]. }
  apply Hrun; [apply Inv_new|]. intros _. simpl. auto.
Qed.

(** Until the bring-up has succeeded, onStatus has not been called,
    loadRemote has not been called, no device has been requested, no audio
    context created and init not called, and the model is not loaded. When
    the bring-up has failed this stays so whatever is called next: the
    failure shows in the rejected promise only, never in onStatus. *)
Theorem silent_until_runtime_ready c (w : World) :
  reachable c w ->
  promises (dom w) !! 0%nat <> Some InitFulfilled ->
  (statusLog (obs w) = [] /\ transfers (dom w) = [] /\ deviceRequests (dom w) = [] /\
   contexts (dom w) = [] /\ initCalls (eng w) = [] /\
   modelLoaded (ctl w) = false /\ isRecording (ctl w) = false) /\
  (forall e, promises (dom w) !! 0%nat = Some (InitRejected e) ->
   forall later,
     statusLog (obs (run later w)) = [] /\ transfers (dom (run later w)) = [] /\
     deviceRequests (dom (run later w)) = [] /\ initCalls (eng (run later w)) = []).
Proof.
  intros Hreach Hn. pose proof (Inv_reachable c w Hreach) as HI.
  destruct (reachable_quiet c w Hreach Hn) as (Q1 & Q2 & Q3 & Q4 & Q5).
  assert (Hl : modelLoaded (ctl w) = false).
  { destruct (modelLoaded (ctl w)) eqn:E; [|reflexivity].
    apply (inv_loaded_module _ HI), (inv_module_fulfilled _ HI) in E. contradiction. }
  split.
  - repeat split; auto. apply not_loaded_not_recording; assumption.
  - intros e He later.
    assert (Hn' : promises (dom (run later w)) !! 0%nat <> Some InitFulfilled).
    { rewrite (run_promise_settled later w 0 (InitRejected e) eq_refl He). discriminate. }
    destruct (reachable_quiet c (run later w) (reachable_run c later w Hreach) Hn')
      as (R1 & R2 & R3 & R4 & R5).
    auto.
Qed.

(** *** loadModel (index.ts, 316-360) *)

Lemma ready_promise (w : World) :
  Inv w -> Module_ (ctl w) <> None ->
  promises (dom w) !! 0%nat = Some InitFulfilled /\ initPromise (ctl w) = Some 0%nat.
Proof.
  intros HI Hm. pose proof (inv_module_fulfilled _ HI Hm) as Hp.
  split; [exact Hp|]. eapply promise_kept; eauto.
Qed.

(** With the runtime ready and the model not loaded (before the first
    load, or after a cancelled one), loadModel() run to its end loads the
    model: it runs no bring-up again, calls loadRemote once, stores the bytes
    it is given, sets the model-loaded flag and fires "Loading model..." and
    "Model loaded successfully"; a further loadModel() returns at once and
    changes nothing. *)
Theorem loadModel_loads_when_runtime_ready c (w : World) buf :
  reachable c w ->
  Module_ (ctl w) <> None ->
  modelLoaded (ctl w) = false ->
  let w' :=
    run [CallLoadModel;
         LoadModelResume (length (loadWaiters (dom w)));
         TransferComplete (length (transfers (dom w))) buf] w in
  modelLoaded (ctl w') = true /\
  storedModel (eng w') = Some buf /\
  statusLog (obs w') = statusLog (obs w) ++ ["Loading model..."; "Model loaded successfully"] /\
  length (transfers (dom w')) = S (length (transfers (dom w))) /\
  coiLoads (dom w') = coiLoads (dom w) /\
  helperLoads (dom w') = helperLoads (dom w) /\
  wasmLoads (dom w') = wasmLoads (dom w) /\
  loadModel w' = (w', Returned).
Proof.
  intros Hreach Hm Hl w'. pose proof (Inv_reachable c w Hreach) as HI.
  destruct (ready_promise w HI Hm) as [Hp Hip].
  subst w'. destruct w as [ct d e o]. simpl in *.
  destruct (Module_ ct) as [m|] eqn:Hmm; [|contradiction].
  unfold run, loadModel. simpl. unfold loadModel, initialize. simpl.
  rewrite Hl, Hip. simpl.
  unfold loadModel_resume. simpl. rewrite list_lookup_middle by reflexivity.
  rewrite Hp. simpl.
  unfold storeFS. simpl. rewrite list_lookup_middle by reflexivity. simpl.
  rewrite Hmm. simpl. rewrite length_alter, length_app. simpl.
  rewrite <- app_assoc. simpl. repeat split; auto. lia.
Qed.

(** Unlike initialize(), loadModel() is not memoized: two calls that overlap
    (the second made before the first has loaded the model) each call
    loadRemote, so the model is transferred twice; both await the one
    promise of initialize(). *)
Theorem overlapping_loadModel_transfers_twice c (w : World) :
  reachable c w ->
  Module_ (ctl w) <> None ->
  modelLoaded (ctl w) = false ->
  let n := length (loadWaiters (dom w)) in
  let w' := run [CallLoadModel; CallLoadModel; LoadModelResume n; LoadModelResume (S n)] w in
  transfers (dom w') =
    transfers (dom w) ++ [modelTransfer (config (ctl w)); modelTransfer (config (ctl w))] /\
  statusLog (obs w') = statusLog (obs w) ++ ["Loading model..."; "Loading model..."] /\
  initReturns (obs w') = initReturns (obs w) ++ [0; 0]%nat /\
  coiLoads (dom w') = coiLoads (dom w) /\
  modelLoaded (ctl w') = false.
Proof.
  intros Hreach Hm Hl n w'. pose proof (Inv_reachable c w Hreach) as HI.
  destruct (ready_promise w HI Hm) as [Hp Hip].
  subst w' n. destruct w as [ct d e o]. simpl in *.
  unfold run, loadModel. simpl. unfold loadModel, initialize. simpl.
  rewrite Hl, Hip. simpl. rewrite Hl, Hip. simpl.
  unfold loadModel_resume. simpl.
  rewrite <- app_assoc. simpl.
  rewrite (lookup_app_r _ _ (length (loadWaiters d))) by lia.
  rewrite Nat.sub_diag. simpl. rewrite Hp. simpl.
  rewrite list_lookup_insert_ne by lia.
  rewrite <- app_assoc.
  rewrite (lookup_app_r _ _ (S (length (loadWaiters d)))) by lia.
  replace (S (length (loadWaiters d)) - length (loadWaiters d))%nat with 1%nat by lia.
  simpl. rewrite Hp. simpl.
  rewrite <- !app_assoc. simpl. repeat split; auto.
Qed.

(** *** startRecording: the engine instance (index.ts, 372-381) *)

(** When init returns 0, startRecording() throws "Failed to initialize
    Whisper" before anything else is done: no audio context is created, no
    device is requested, the recording flag stays false and no status is
    fired. Nothing is memoized: the next startRecording() calls init again
    and, given a handle, goes on to the device request. *)
Theorem failed_engine_init_can_be_retried c (w : World) h :
  reachable c w ->
  modelLoaded (ctl w) = true ->
  isRecording (ctl w) = false ->
  truthy (instance (ctl w)) = false ->
  h <> 0%Z ->
  let w1 := fst (startRecording 0 w) in
  snd (startRecording 0 w) = Threw WhisperInitFailed /\
  contexts (dom w1) = contexts (dom w) /\
  deviceRequests (dom w1) = deviceRequests (dom w) /\
  audioContext (ctl w1) = audioContext (ctl w) /\
  isRecording (ctl w1) = false /\
  statusLog (obs w1) = statusLog (obs w) /\
  initCalls (eng w1) = initCalls (eng w) ++ [0%Z] /\
  snd (startRecording h w1) = AwaitingDevice (length (deviceRequests (dom w))) /\
  initCalls (eng (fst (startRecording h w1))) = initCalls (eng w) ++ [0%Z; h] /\
  instance (ctl (fst (startRecording h w1))) = Some h /\
  isRecording (ctl (fst (startRecording h w1))) = true.
Proof.
  intros Hreach Hl Hr Ht Hh w1. pose proof (Inv_reachable c w Hreach) as HI.
  pose proof (inv_loaded_module _ HI Hl) as Hm.
  subst w1. destruct w as [ct d e o]. destruct ct. simpl in *. subst.
  destruct Module_0 as [m|]; [|contradiction].
  apply Z.eqb_neq in Hh.
  unfold startRecording, ensure_instance. simpl. rewrite Ht. simpl.
  rewrite Hh. simpl. rewrite <- app_assoc. simpl. repeat split; auto.
Qed.

(** *** While recording an instance is held *)

Lemma step_recording_instance (w : World) ev :
  recording_has_instance w -> recording_has_instance (step w ev).
Proof.
  intros H.
  destruct ev; simpl;
    try (unfold recording_has_instance in *; unfold_step;
         repeat case_match; simplify_eq; simpl in *; auto; congruence).
  unfold destroy. destruct (stopRecording_completion w) as [Hc|Hc].
  - pose proof (stopRecording_flag w Hc) as Hf.
    destruct (stopRecording w) as [w1 k]. simpl in *. subst k. simpl.
    intros Hr. simpl in Hr. congruence.
  - rewrite Hc. exact H.
Qed.

Lemma reachable_recording_instance c (w : World) : reachable c w -> recording_has_instance w.
Proof.
  intros [evs ->].
  assert (forall w0 : World, recording_has_instance w0 -> recording_has_instance (run evs w0))
    as Hrun.
  { induction evs as [|ev evs IH]; intros w0 H0; simpl; [exact H0|].
    apply IH, step_recording_instance, H0. }
  apply Hrun. intros Hr. discriminate Hr.
Qed.

(** *** The restart of mediaRecorder.onstop (index.ts, 450-454) *)

(** While the recording flag is true the restart restarts nothing: the
    startRecording() called by the timeout of onstop returns at its
    already-recording guard, so after a recorder has stopped by itself no
    device is requested, no recorder and no audio context is made and the
    class is as before; only the pending timeout is gone. *)
Theorem restart_while_recording_does_nothing c (w : World) rid h :
  reachable c w ->
  isRecording (ctl w) = true ->
  is_Some (recorders (dom w) !! rid) ->
  run [RecorderStop rid; RestartTimer h] w = w /\
  (forall h', ctl (step w (RestartTimer h')) = ctl w /\
              eng (step w (RestartTimer h')) = eng w /\
              obs (step w (RestartTimer h')) = obs w /\
              deviceRequests (dom (step w (RestartTimer h'))) = deviceRequests (dom w) /\
              recorders (dom (step w (RestartTimer h'))) = recorders (dom w) /\
              contexts (dom (step w (RestartTimer h'))) = contexts (dom w)).
Proof.
  intros Hreach Hr [rc Hrc]. pose proof (Inv_reachable c w Hreach) as HI.
  pose proof (inv_recording_loaded _ HI Hr) as Hl.
  split.
  - destruct w as [ct d e o]. destruct d. simpl in *.
    unfold run. simpl. unfold recorder_onstop. simpl. rewrite Hrc, Hr.
    unfold restart_timer. simpl. unfold startRecording. simpl. rewrite Hl, Hr. reflexivity.
  - intros h'. destruct w as [ct d e o]. simpl in *. unfold restart_timer. simpl.
    destruct (restartTimers d); [simpl; repeat split; reflexivity|].
    unfold startRecording. simpl. rewrite Hl, Hr. simpl. repeat split; reflexivity.
Qed.

(** A stopRecording() that comes between onstop and its timeout does not
    prevent the restart: the timeout then finds the flag false and runs a
    whole startRecording(), so the controller records again although it was
    stopped: a new audio context and a new device request are made and
    "Recording..." is fired after "Stopped". *)
Theorem restart_after_stop_records_again c (w : World) rid h :
  reachable c w ->
  isRecording (ctl w) = true ->
  is_Some (recorders (dom w) !! rid) ->
  let w' := run [RecorderStop rid; CallStopRecording; RestartTimer h] w in
  isRecording (ctl w') = true /\
  statusLog (obs w') = statusLog (obs w) ++ ["Stopped"; "Recording..."] /\
  deviceRequests (dom w') =
    deviceRequests (dom w) ++ [MkDeviceRequest userMediaConstraints RequestPending] /\
  audioContext (ctl w') = Some (length (contexts (dom w))) /\
  initCalls (eng w') = initCalls (eng w).
Proof.
  intros Hreach Hr [rc Hrc] w'. pose proof (Inv_reachable c w Hreach) as HI.
  pose proof (inv_recording_loaded _ HI Hr) as Hl.
  pose proof (inv_loaded_module _ HI Hl) as Hm.
  pose proof (reachable_recording_instance c w Hreach Hr) as Hi.
  subst w'. destruct w as [ct d e o]. destruct ct. simpl in *. subst.
  destruct Module_0 as [m|]; [|contradiction].
  unfold run. simpl. unfold recorder_onstop. simpl. rewrite Hrc. simpl.
  unfold stopRecording. simpl.
  destruct mediaRecorder0, audioContext0; simpl;
    unfold restart_timer; simpl; unfold startRecording, ensure_instance; simpl;
    rewrite Hi; simpl; rewrite ?length_alter, <- ?app_assoc; simpl; repeat split; auto.
Qed.

(** *** A device granted after stopRecording (index.ts, 400-459, 483-506) *)


(** *** Decodings that finish out of order (index.ts, 404-448) *)

Lemma step_data (w : World) rid rc chunk :
  recorders (dom w) !! rid = Some rc ->
  step w (DataAvailable rid chunk) =
  on_dom (fun d =>
    set_jobs (jobs d ++ [JobReading (concat (rec_chunks rc ++ [chunk]))])
      (set_recorders
         (<[rid := MkRecorder (rec_chunks rc ++ [chunk]) (rec_timeslice rc) (rec_stopped rc)]>
            (recorders d)) d)) w.
Proof. intros H. simpl. unfold ondataavailable. rewrite H. reflexivity. Qed.

Lemma step_reader (w : World) j blob rendered :
  jobs (dom w) !! j = Some (JobReading blob) ->
  audioContext (ctl w) <> None ->
  decodeAudioData blob = Some rendered ->
  step w (ReaderLoaded j) = settle_job j (JobRendering rendered) w.
Proof.
  intros Hj Ha Hd. simpl. unfold reader_onload. rewrite Hj.
  destruct (audioContext (ctl w)); [|contradiction]. rewrite Hd. reflexivity.
Qed.

Lemma step_render (w : World) j rendered h :
  jobs (dom w) !! j = Some (JobRendering rendered) ->
  audio0 (ctl w) = None ->
  instance (ctl w) = Some h ->
  h <> 0%Z ->
  Module_ (ctl w) <> None ->
  step w (RenderingDone j) =
  on_eng (fun e => set_feeds (feeds e ++ [(h, rendered)]) e)
    (settle_job j JobDone (on_ctl (set_audio (Some rendered)) w)).
Proof.
  intros Hj Ha0 Hi Hh Hm. simpl. unfold rendering_done. rewrite Hj. simpl.
  rewrite Ha0, Hi. simpl. apply Z.eqb_neq in Hh. rewrite Hh. simpl.
  destruct (Module_ (ctl w)); [reflexivity|contradiction].
Qed.

(** Nothing orders the feeds: when two chunks arrive and the decoding of
    the second cumulative buffer finishes before that of the first, the
    engine is fed the longer buffer first and the shorter, superseded one
    last, and [this.audio] is left holding the shorter one. *)
Theorem out_of_order_feeds_end_with_the_older c (w : World) rid rc h c1 c2 r1 r12 :
  reachable c w ->
  recorders (dom w) !! rid = Some rc ->
  audioContext (ctl w) <> None ->
  instance (ctl w) = Some h ->
  h <> 0%Z ->
  decodeAudioData (concat (rec_chunks rc ++ [c1])) = Some r1 ->
  decodeAudioData (concat (rec_chunks rc ++ [c1; c2])) = Some r12 ->
  let j := length (jobs (dom w)) in
  let w' :=
    run [DataAvailable rid c1; DataAvailable rid c2;
         ReaderLoaded j; ReaderLoaded (S j);
         RenderingDone (S j); RenderingDone j] w in
  feeds (eng w') = feeds (eng w) ++ [(h, r12); (h, r1)] /\
  audio (ctl w') = Some r1.
Proof.
  intros Hreach Hrec Hctx Hi Hh Hd1 Hd12 j w'.
  pose proof (Inv_reachable c w Hreach) as HI.
  assert (Hm : Module_ (ctl w) <> None).
  { apply (inv_instance_module _ HI). rewrite Hi. apply truthy_Some, Hh. }
  pose proof (inv_audio0 _ HI) as Ha0.
  assert (Hlt : (rid < length (recorders (dom w)))%nat) by (eapply lookup_lt_Some; eauto).
  subst w' j. unfold run. cbn [fold_left].
  rewrite (step_data w rid rc c1 Hrec).
  erewrite (step_data _ rid _ c2)
    by (simpl; apply list_lookup_insert_eq; exact Hlt).
  cbn [rec_chunks rec_timeslice rec_stopped]. rewrite <- app_assoc. cbn [app].
  erewrite (step_reader _ (length (jobs (dom w))) _ r1); cycle 1.
  { simpl. rewrite <- app_assoc. apply list_lookup_middle. reflexivity. }
  { exact Hctx. }
  { exact Hd1. }
  erewrite (step_reader _ (S (length (jobs (dom w)))) _ r12); cycle 1.
  { simpl. rewrite list_lookup_insert_ne by lia. rewrite <- app_assoc.
    rewrite lookup_app_r by lia.
    replace (S (length (jobs (dom w))) - length (jobs (dom w)))%nat with 1%nat by lia.
    reflexivity. }
  { exact Hctx. }
  { exact Hd12. }
  erewrite (step_render _ (S (length (jobs (dom w)))) r12 h); cycle 1.
  { simpl. apply list_lookup_insert_eq. rewrite length_insert, !length_app. simpl. lia. }
  { exact Ha0. }
  { exact Hi. }
  { exact Hh. }
  { exact Hm. }
  erewrite (step_render _ (length (jobs (dom w))) r1 h); cycle 1.
  { simpl. rewrite list_lookup_insert_ne by lia. rewrite list_lookup_insert_ne by lia.
    apply list_lookup_insert_eq. rewrite !length_app. simpl. lia. }
  { exact Ha0. }
  { exact Hi. }
  { exact Hh. }
  { exact Hm. }
  simpl. rewrite <- app_assoc. split; reflexivity.
Qed.

(** *** Chunks that arrive after stopRecording *)

Lemma step_stopped_quiet (w : World) ev :
  starts_recording ev = false ->
  audioContext (ctl w) = None -> audio (ctl w) = None -> nothing_rendering w ->
  audioContext (ctl (step w ev)) = None /\ audio (ctl (step w ev)) = None /\
  nothing_rendering (step w ev) /\ feeds (eng (step w ev)) = feeds (eng w).
Proof.
  unfold nothing_rendering. intros Hev Ha Hau Hn.
  destruct ev; try discriminate Hev; simpl; unfold_step;
    repeat case_match; simplify_eq; simpl in *;
    try (exfalso;
         match goal with
         | H : _ !! _ = Some (JobRendering _) |- _ =>
             apply (proj1 (Forall_lookup _ _) Hn) in H; discriminate H
         end);
    repeat split; auto;
    try congruence;
    try (apply Forall_insert; [assumption|reflexivity]);
    try (apply Forall_app; split; [assumption|repeat constructor]).
Qed.

Lemma run_stopped_quiet later : forall (w : World),
  Forall (fun ev => starts_recording ev = false) later ->
  audioContext (ctl w) = None -> audio (ctl w) = None -> nothing_rendering w ->
  audio (ctl (run later w)) = None /\
  nothing_rendering (run later w) /\ feeds (eng (run later w)) = feeds (eng w).
Proof.
  induction later as [|ev later IH]; intros w Hevs Ha Hau Hn; [auto|].
  apply Forall_cons in Hevs. destruct Hevs as [Hev Hevs].
  destruct (step_stopped_quiet w ev Hev Ha Hau Hn) as (Ha' & Hau' & Hn' & Hf).
  destruct (IH (step w ev) Hevs Ha' Hau' Hn') as (E1 & E2 & E3).
  simpl. split; [exact E1|]. split; [exact E2|]. congruence.
Qed.

(** After a stopRecording() called while recording, with no decoding in
    flight at that moment, and as long as startRecording() does not run
    again (neither called nor run by the timeout of onstop), nothing is
    decoded: whatever else is called or happens, in any order (chunks
    arriving, reads completing, the device request granted, destroy()), the
    reader callback finds [this.audioContext] null and returns, so set_audio
    is not called, [this.audio] stays null and no decoding is started. *)
Theorem chunks_after_stop_are_dropped c (w : World) later :
  reachable c w ->
  isRecording (ctl w) = true ->
  nothing_rendering w ->
  Forall (fun ev => starts_recording ev = false) later ->
  let w' := run later (fst (stopRecording w)) in
  feeds (eng w') = feeds (eng w) /\ audio (ctl w') = None /\ nothing_rendering w'.
Proof.
  intros Hreach Hr Hn Hevs w'. subst w'.
  pose proof (Inv_reachable c w Hreach) as HI.
  pose proof (recording_module w HI Hr) as Hm.
  assert (Hframe : jobs (dom (fst (stopRecording w))) = jobs (dom w) /\
                   feeds (eng (fst (stopRecording w))) = feeds (eng w)).
  { unfold stopRecording. repeat case_match; simpl; auto. }
  destruct Hframe as (Hj & Hf).
  assert (Hstopped : audio (ctl (fst (stopRecording w))) = None /\
                     audioContext (ctl (fst (stopRecording w))) = None).
  { unfold stopRecording. rewrite Hr. simpl.
    destruct (Module_ (ctl w)); [|contradiction]. simpl.
    destruct (mediaRecorder (ctl w)); simpl;
      destruct (audioContext (ctl w)) eqn:E; simpl; rewrite ?E; auto. }
  destruct Hstopped as (Hau & Hctx).
  destruct (run_stopped_quiet later (fst (stopRecording w)) Hevs Hctx Hau) as (E1 & E2 & E3).
  - unfold nothing_rendering. rewrite Hj. exact Hn.
  - split; [congruence|]. split; [exact E1|exact E2].
Qed.

(** *** What calls onTranscription and set_audio *)

(** onTranscription is called by nothing but a tick of a live poller while
    the recording flag is true, with the text that tick pulled, whose length
    (in UTF-16 code units) is greater than 1. *)
Theorem onTranscription_only_from_a_live_poll (w : World) ev :
  transcriptions (obs (step w ev)) = transcriptions (obs w) \/
  exists t text,
    ev = PollTick t (Some text) /\
    isRecording (ctl w) = true /\
    cleared <$> intervals (dom w) !! t = Some false /\
    (1 < length text)%nat /\
    transcriptions (obs (step w ev)) = transcriptions (obs w) ++ [text].
Proof.
  destruct ev; try (left; simpl; unfold_step; repeat case_match; simplify_eq; reflexivity).
  simpl. unfold poll_tick.
  destruct (cleared <$> intervals (dom w) !! t) as [[]|] eqn:Ht; auto.
  destruct (isRecording (ctl w)) eqn:Hr; simpl; auto.
  destruct (Module_ (ctl w)); auto. destruct pulled as [text|]; auto.
  destruct (1 <? length text)%nat eqn:Hlen; auto.
  right. exists t, text. apply Nat.ltb_lt in Hlen. auto.
Qed.

(** *** Every feed goes to the instance init returned *)

Lemma step_handles (w : World) ev : handles_from_init w -> handles_from_init (step w ev).
Proof.
  intros [Hi Hf].
  assert (Hmono : forall (l : list Z) x (fs : list (Z * list sample)),
            Forall (fun f => fst f <> 0%Z /\ fst f ∈ l) fs ->
            Forall (fun f => fst f <> 0%Z /\ fst f ∈ l ++ [x]) fs).
  { intros l x fs H. eapply Forall_impl; [exact H|]. intros f [? ?]. split; [assumption|].
    apply elem_of_app. auto. }
  step_cases ev; split; simpl; auto;
    try (intros h' [= <-] Hh'; apply elem_of_app; right; apply list_elem_of_singleton;
         reflexivity);
    try (intros h' Hh' Hz; apply elem_of_app; left; apply Hi; assumption);
    try (apply Hmono; assumption);
    try (intros; discriminate).
  all: try match goal with
       | H : negb (?h =? 0)%Z = true |- Forall _ (_ ++ [_]) =>
           apply Forall_app; split; [assumption|];
           constructor; [|constructor]; simpl;
           apply negb_true_iff, Z.eqb_neq in H; split; [exact H|apply Hi; auto]
       end.
Qed.

Lemma reachable_handles c (w : World) : reachable c w -> handles_from_init w.
Proof.
  intros [evs ->].
  assert (forall w0 : World, handles_from_init w0 -> handles_from_init (run evs w0)) as Hrun.
  { induction evs as [|ev evs IH]; intros w0 H0; simpl; [exact H0|].
    apply IH, step_handles, H0. }
  apply Hrun. split; [intros h Hh; discriminate Hh|constructor].
Qed.

(** Every set_audio of a controller's life is given a non-zero handle that
    init returned, and all of them are given the same one. *)
Theorem feeds_go_to_one_instance c (w : World) f1 f2 :
  reachable c w ->
  f1 ∈ feeds (eng w) ->
  f2 ∈ feeds (eng w) ->
  fst f1 <> 0%Z /\ fst f1 ∈ initCalls (eng w) /\ fst f1 = fst f2.
Proof.
  intros Hreach H1 H2. pose proof (Inv_reachable c w Hreach) as HI.
  destruct (reachable_handles c w Hreach) as [_ Hf].
  rewrite Forall_forall in Hf.
  destruct (Hf f1 H1) as [Hz1 Hm1]. destruct (Hf f2 H2) as [Hz2 Hm2].
  split; [exact Hz1|]. split; [exact Hm1|].
  pose proof (inv_created_once _ HI) as Hc. unfold creations in Hc.
  assert (E1 : fst f1 ∈ filter (fun h => h <> 0%Z) (initCalls (eng w)))
    by (apply list_elem_of_filter; auto).
  assert (E2 : fst f2 ∈ filter (fun h => h <> 0%Z) (initCalls (eng w)))
    by (apply list_elem_of_filter; auto).
  destruct (filter (fun h => h <> 0%Z) (initCalls (eng w))) as [|x [|y l]];
    simpl in Hc; [inversion E1| |lia].
  apply list_elem_of_singleton in E1, E2. congruence.
Qed.

(** *** A destroyed controller *)

Lemma step_retired (w : World) ev :
  Inv w -> retired w ->
  retired (step w ev) /\
  eng (step w ev) = eng w /\
  length (deviceRequests (dom (step w ev))) = length (deviceRequests (dom w)) /\
  contexts (dom (step w ev)) = contexts (dom w) /\
  transcriptions (obs (step w ev)) = transcriptions (obs w).
Proof.
  intros HI [Hin Hti].
  pose proof (step_inert w ev HI Hin) as Hin'.
  pose proof (inert_not_loaded w HI Hin) as Hl.
  pose proof (not_loaded_not_recording w HI Hl) as Hr.
  destruct Hin as [Hm _].
  split; [split; [exact Hin'|]|].
  - step_cases ev; auto; congruence.
  - step_cases ev; rewrite ?length_alter; auto; try congruence.
Qed.

Lemma run_retired evs (w : World) :
  Inv w -> retired w ->
  retired (run evs w) /\
  eng (run evs w) = eng w /\
  length (deviceRequests (dom (run evs w))) = length (deviceRequests (dom w)) /\
  contexts (dom (run evs w)) = contexts (dom w) /\
  transcriptions (obs (run evs w)) = transcriptions (obs w).
Proof.
  revert w. induction evs as [|ev evs IH]; intros w HI HR; simpl; [auto|].
  destruct (step_retired w ev HI HR) as (HR' & E1 & E2 & E3 & E4).
  destruct (IH (step w ev) (Inv_step w ev HI) HR') as (HR'' & F1 & F2 & F3 & F4).
  repeat split; try apply HR''; congruence.
Qed.

(** Once destroy() has run on a controller whose bring-up had settled, the
    controller leaves the engine alone whatever is called or happens next:
    init, set_audio, set_status and the model file are never touched again,
    no device is requested, no audio context is created and onTranscription
    is never called. *)
Theorem destroyed_controller_leaves_engine_alone c (w : World) st later :
  reachable c w ->
  promises (dom w) !! 0%nat = Some st ->
  is_settled st = true ->
  let w' := fst (destroy w) in
  eng (run later w') = eng w' /\
  length (deviceRequests (dom (run later w'))) = length (deviceRequests (dom w')) /\
  contexts (dom (run later w')) = contexts (dom w') /\
  transcriptions (obs (run later w')) = transcriptions (obs w') /\
  truthy (instance (ctl (run later w'))) = false.
Proof.
  intros Hreach Hp Hst w'.
  pose proof (Inv_reachable c w Hreach) as HI.
  pose proof (Inv_destroy w HI) as HId.
  assert (Hp' : promises (dom w') !! 0%nat = Some st).
  { apply (step_promise_settled w CallDestroy 0 st Hst Hp). }
  assert (HR : retired w').
  { split; [split|].
    - subst w'. rewrite (destroy_returns w HI). reflexivity.
    - exists st. split; assumption.
    - subst w'. rewrite (destroy_returns w HI). reflexivity. }
  destruct (run_retired later w' HId HR) as ([_ Ht] & E1 & E2 & E3 & E4).
  repeat split; assumption.
Qed.

(** *** stopRecording and destroy twice *)

(** stopRecording() and destroy() are idempotent: a second call right after
    the first returns and leaves the whole state as the first left it. *)
Theorem stop_and_destroy_are_idempotent c (w : World) :
  reachable c w ->
  stopRecording (fst (stopRecording w)) = (fst (stopRecording w), Returned) /\
  destroy (fst (destroy w)) = (fst (destroy w), Returned).
Proof.
  intros Hreach. pose proof (Inv_reachable c w Hreach) as HI.
  pose proof (stopRecording_flag w (stopRecording_returns w HI)) as Hf.
  split.
  - unfold stopRecording at 1. rewrite Hf. reflexivity.
  - rewrite (destroy_returns w HI).
    destruct (fst (stopRecording w)) as [ct d e o]. simpl in *.
    unfold destroy, stopRecording. simpl. rewrite Hf. reflexivity.
Qed.

(** *** Pollers across a quick restart (index.ts, 456-481) *)

Lemma tail2_lookup0 {A} (l : list A) a b : (l ++ [a; b]) !! length l = Some a.
Proof. apply list_lookup_middle. reflexivity. Qed.

Lemma tail2_lookup1 {A} (l : list A) a b : (l ++ [a; b]) !! S (length l) = Some b.
Proof.
  rewrite lookup_app_r by lia.
  replace (S (length l) - length l)%nat with 1%nat by lia. reflexivity.
Qed.

(** Every granted startRecording() sets a new interval and nothing clears an
    interval but its own tick: when stopRecording() and a new, granted
    startRecording() follow a recording before the old poller has ticked,
    the old poller never sees the flag false and stays alive beside the new
    one, and from then on each of the two pulls the transcript on its ticks
    and calls onTranscription with a text whose length (in UTF-16 code
    units) is greater than 1. *)
Theorem quick_restart_leaves_two_pollers (w : World) h h2 w1 r :
  startRecording h w = (w1, AwaitingDevice r) ->
  let w2 :=
    run [UserMediaGranted r; CallStopRecording; CallStartRecording h2;
         UserMediaGranted (S r)] w1 in
  let n := length (intervals (dom w)) in
  intervals (dom w2) = intervals (dom w) ++ [MkInterval 100 false; MkInterval 100 false] /\
  isRecording (ctl w2) = true /\
  forall text, (1 < length text)%nat ->
    transcriptions (obs (run [PollTick n (Some text); PollTick (S n) (Some text)] w2))
    = transcriptions (obs w2) ++ [text; text].
Proof.
  intros Hs w2 n.
  destruct (startRecording_awaiting w h w1 r Hs)
    as (Hl & Hr0 & Hti & Hr & -> & Ha & Hc & Hd & _ & Hm).
  assert (Hint : intervals (dom w1) = intervals (dom w) /\ modelLoaded (ctl w1) = true).
  { revert Hs. unfold startRecording, ensure_instance.
    repeat case_match; intros; simplify_eq; simpl; auto. }
  destruct Hint as (Hint & Hl1).
  subst w2 n. unfold run. cbn [fold_left].
  (* the first grant *)
  set (wa := step w1 (UserMediaGranted (length (deviceRequests (dom w))))).
  assert (Fa : intervals (dom wa) = intervals (dom w) ++ [MkInterval 100 false] /\
               isRecording (ctl wa) = true /\ modelLoaded (ctl wa) = true /\
               truthy (instance (ctl wa)) = true /\ Module_ (ctl wa) <> None /\
               length (deviceRequests (dom wa)) = S (length (deviceRequests (dom w)))).
  { subst wa. simpl. unfold userMedia_granted. rewrite Hd.
    rewrite list_lookup_middle by reflexivity. simpl.
    rewrite length_alter, Hd, length_app, Hint. simpl. repeat split; auto. lia. }
  clearbody wa.
  destruct Fa as (Ia & Ra & La & Ta & Ma & Da).
  (* stopRecording *)
  set (wb := step wa CallStopRecording).
  assert (Fb : intervals (dom wb) = intervals (dom wa) /\
               isRecording (ctl wb) = false /\ modelLoaded (ctl wb) = true /\
               truthy (instance (ctl wb)) = true /\ Module_ (ctl wb) <> None /\
               deviceRequests (dom wb) = deviceRequests (dom wa)).
  { subst wb. simpl. unfold stopRecording. rewrite Ra. simpl.
    destruct (Module_ (ctl wa)) eqn:E; [|contradiction]. simpl.
    destruct (mediaRecorder (ctl wa)); simpl; destruct (audioContext (ctl wa)); simpl;
      rewrite ?E; repeat split; auto; discriminate. }
  clearbody wb.
  destruct Fb as (Ib & Rb & Lb & Tb & Mb & Db).
  (* the second startRecording *)
  set (wc := step wb (CallStartRecording h2)).
  assert (Fc : intervals (dom wc) = intervals (dom wb) /\
               isRecording (ctl wc) = true /\ Module_ (ctl wc) <> None /\
               deviceRequests (dom wc) =
                 deviceRequests (dom wb) ++ [MkDeviceRequest userMediaConstraints RequestPending]).
  { subst wc. simpl. unfold startRecording, ensure_instance. rewrite Lb, Rb, Tb. simpl.
    destruct (Module_ (ctl wb)) eqn:E; [|contradiction]. simpl. rewrite E.
    repeat split; auto. }
  clearbody wc.
  destruct Fc as (Ic & Rc & Mc & Dc).
  (* the second grant *)
  set (wd := step wc (UserMediaGranted (S (length (deviceRequests (dom w)))))).
  assert (Fd : intervals (dom wd) = intervals (dom wc) ++ [MkInterval 100 false] /\
               isRecording (ctl wd) = true /\ Module_ (ctl wd) = Module_ (ctl wc) /\
               transcriptions (obs wd) = transcriptions (obs wc)).
  { subst wd. simpl. unfold userMedia_granted. rewrite Dc, Db.
    rewrite <- Da. rewrite list_lookup_middle by reflexivity. simpl.
    repeat split; auto. }
  clearbody wd.
  destruct Fd as (Id & Rd & Md & _).
  assert (Hivs : intervals (dom wd)
                 = intervals (dom w) ++ [MkInterval 100 false; MkInterval 100 false]).
  { rewrite Id, Ic, Ib, Ia, <- app_assoc. reflexivity. }
  split; [exact Hivs|]. split; [exact Rd|].
  intros text Hlen. apply Nat.ltb_lt in Hlen.
  assert (Mdd : Module_ (ctl wd) <> None) by congruence.
  simpl. unfold poll_tick. rewrite Hivs, tail2_lookup0. simpl. rewrite Rd. simpl.
  destruct (Module_ (ctl wd)) eqn:E; [|contradiction]. rewrite Hlen. simpl.
  rewrite Hivs, tail2_lookup1. simpl. rewrite Rd, E. simpl.
  rewrite <- app_assoc. reflexivity.
Qed.

(** *** The status "Ready to load model" (index.ts, 306) *)

Lemma ready_other (w : World) s :
  s <> "Ready to load model" ->
  ready_announcements (fire_status s w) = ready_announcements w.
Proof.
  intros Hs. unfold ready_announcements, fire_status. simpl.
  rewrite filter_app, length_app, filter_cons, filter_nil.
  destruct (decide (s = "Ready to load model")); [contradiction|]. simpl. lia.
Qed.

Lemma step_announced (w : World) ev : Inv w -> announced_when_ready w ->
  announced_when_ready (step w ev).
Proof.
  intros HI HA. unfold announced_when_ready, ready_announcements in *.
  pose proof (inv_no_promise _ HI) as Hno.
  assert (Happ : forall l s,
            length (filter (fun s => s = "Ready to load model") (l ++ [s])) =
            (length (filter (fun s => s = "Ready to load model") l) +
             (if decide (s = "Ready to load model") then 1 else 0))%nat).
  { intros l s. rewrite filter_app, length_app, filter_cons, filter_nil.
    destruct (decide (s = "Ready to load model")); reflexivity. }
  one_promise w HI; simpl in *.
  - step_cases ev; rewrite ?Happ; simpl;
      repeat match goal with
      | |- context [decide (?a = ?b)] => destruct (decide (a = b)); [try discriminate|]
      | H : [] !! _ = Some _ |- _ => rewrite lookup_nil in H; discriminate H
      end; simpl; try lia; try (destruct p; discriminate).
  - step_cases ev; rewrite ?Happ; simpl;
      repeat match goal with
      | |- context [decide (?a = ?b)] => destruct (decide (a = b)); [try discriminate|]
      | H : [_] !! ?p = Some _ |- _ =>
          destruct p as [|?]; simpl in H; [|rewrite ?lookup_nil in H; discriminate H]
      end; simplify_eq; simpl in *; try lia; try (specialize (Hno eq_refl); discriminate).
Qed.

Lemma reachable_announced c (w : World) : reachable c w -> announced_when_ready w.
Proof.
  intros [evs ->].
  assert (forall w0 : World, Inv w0 -> announced_when_ready w0 ->
            announced_when_ready (run evs w0)) as Hrun.
  { induction evs as [|ev evs IH]; intros w0 HI0 H0; simpl; [exact H0|].
    apply IH; [apply Inv_step, HI0|apply step_announced; assumption]. }
  apply Hrun; [apply Inv_new|reflexivity].
Qed.

(** onStatus is called with "Ready to load model" once at most in the life
    of a controller, and it has been called with it exactly when the
    bring-up is fulfilled; no later initialize() or loadModel() fires it
    again. *)
Theorem ready_is_announced_once c (w : World) :
  reachable c w ->
  (ready_announcements w <= 1)%nat /\
  (ready_announcements w = 1%nat <-> promises (dom w) !! 0%nat = Some InitFulfilled).
Proof.
  intros Hreach. pose proof (reachable_announced c w Hreach) as HA.
  unfold announced_when_ready in HA. rewrite HA.
  destruct (promises (dom w) !! 0%nat) as [[[]| |]|]; split; try lia;
    split; intros H; try reflexivity; try discriminate H.
Qed.

(** *** Chunks accumulate (index.ts, 398-407) *)

Lemma step_chunks_grow (w : World) ev rid rc :
  recorders (dom w) !! rid = Some rc ->
  exists rc' more,
    recorders (dom (step w ev)) !! rid = Some rc' /\
    rec_chunks rc' = rec_chunks rc ++ more.
Proof.
  intros Hrc.
  assert (Hsame : exists rc' more,
            recorders (dom w) !! rid = Some rc' /\ rec_chunks rc' = rec_chunks rc ++ more).
  { exists rc, []. rewrite app_nil_r. auto. }
  assert (Halter : forall r,
            exists rc' more,
              alter (fun x => MkRecorder (rec_chunks x) (rec_timeslice x) true) r
                (recorders (dom w)) !! rid = Some rc' /\
              rec_chunks rc' = rec_chunks rc ++ more).
  { intros r. destruct (decide (r = rid)) as [->|Hne].
    - rewrite list_lookup_alter_eq, Hrc. simpl. eexists _, []. rewrite app_nil_r. auto.
    - rewrite list_lookup_alter_ne by exact Hne. exact Hsame. }
  step_cases ev; auto.
  - exists rc, []. rewrite app_nil_r. split; [|reflexivity].
    apply lookup_app_l_Some. exact Hrc.
  - match goal with
    | H : recorders _ !! ?r = Some ?m |- _ =>
        destruct (decide (r = rid)) as [->|Hne];
        [ rewrite list_lookup_insert_eq by (eapply lookup_lt_Some; eassumption);
          assert (m = rc) as -> by congruence; eexists _, _; split; reflexivity
        | rewrite list_lookup_insert_ne by exact Hne; exact Hsame ]
    end.
Qed.

Lemma step_prefix_blob (w : World) ev blob : prefix_blob w blob -> prefix_blob (step w ev) blob.
Proof.
  intros (rid & rc & k & Hrc & Hk & ->).
  destruct (step_chunks_grow w ev rid rc Hrc) as (rc' & more & Hrc' & Hch).
  exists rid, rc', k. split; [exact Hrc'|]. rewrite Hch. split.
  - rewrite length_app. lia.
  - rewrite take_app_le by exact Hk. reflexivity.
Qed.

Lemma step_decoded_prefix (w : World) ev rendered :
  decoded_prefix decodeAudioData w rendered ->
  decoded_prefix decodeAudioData (step w ev) rendered.
Proof. intros (blob & Hb & Hd). exists blob. split; [apply step_prefix_blob, Hb|exact Hd]. Qed.

Lemma frame_feeds_from_prefixes (w : World) ev :
  jobs (dom (step w ev)) = jobs (dom w) ->
  feeds (eng (step w ev)) = feeds (eng w) ->
  feeds_from_prefixes decodeAudioData w ->
  feeds_from_prefixes decodeAudioData (step w ev).
Proof.
  intros Hj Hf (P1 & P2 & P3). split; [|split].
  - intros j blob H. rewrite Hj in H. eapply step_prefix_blob, P1, H.
  - intros j r H. rewrite Hj in H. eapply step_decoded_prefix, P2, H.
  - intros f H. rewrite Hf in H. eapply step_decoded_prefix, P3, H.
Qed.

Lemma step_feeds_from_prefixes (w : World) ev :
  Inv w ->
  feeds_from_prefixes decodeAudioData w ->
  feeds_from_prefixes decodeAudioData (step w ev).
Proof.
  intros HI HP.
  destruct ev;
    try (apply frame_feeds_from_prefixes; [| |exact HP];
         simpl; unfold_step; repeat case_match; simplify_eq; reflexivity).
  - (* DataAvailable *)
    destruct (recorders (dom w) !! rid) as [rc|] eqn:Hrc.
    + destruct HP as (P1 & P2 & P3).
      pose proof (step_data w rid rc chunk Hrc) as E.
      assert (Hlt : (rid < length (recorders (dom w)))%nat) by (eapply lookup_lt_Some; eauto).
      split; [|split].
      * intros j blob H. rewrite E in H. simpl in H.
        apply lookup_app_Some in H as [H|[_ H]].
        -- eapply step_prefix_blob, P1, H.
        -- destruct (j - length (jobs (dom w)))%nat; [|discriminate H].
           injection H as <-. rewrite E. simpl.
           eexists rid, _, (length (rec_chunks rc ++ [chunk])).
           split; [apply list_lookup_insert_eq, Hlt|]. simpl.
           split; [reflexivity|]. rewrite take_ge by reflexivity. reflexivity.
      * intros j r H. rewrite E in H. simpl in H.
        apply lookup_app_Some in H as [H|[_ H]].
        -- eapply step_decoded_prefix, P2, H.
        -- destruct (j - length (jobs (dom w)))%nat; discriminate H.
      * intros f H. rewrite E in H. simpl in H.
        eapply step_decoded_prefix, P3, H.
    + apply frame_feeds_from_prefixes; [| |exact HP];
        simpl; unfold ondataavailable; rewrite Hrc; reflexivity.
  - (* ReaderLoaded *)
    destruct (jobs (dom w) !! j) as [[blob|r|]|] eqn:Hj;
      try (apply frame_feeds_from_prefixes; [| |exact HP];
           simpl; unfold reader_onload; rewrite Hj; reflexivity).
    destruct HP as (P1 & P2 & P3).
    assert (Hlt : (j < length (jobs (dom w)))%nat) by (eapply lookup_lt_Some; eauto).
    assert (Hf : feeds (eng (step w (ReaderLoaded j))) = feeds (eng w)).
    { simpl. unfold reader_onload. rewrite Hj. repeat case_match; reflexivity. }
    assert (Hjobs : exists st, jobs (dom (step w (ReaderLoaded j))) = <[j := st]> (jobs (dom w)) /\
                    (st = JobDone \/ exists r, st = JobRendering r /\ decodeAudioData blob = Some r)).
    { simpl. unfold reader_onload. rewrite Hj.
      destruct (audioContext (ctl w)); [destruct (decodeAudioData blob) as [r|] eqn:Hd|];
        simpl.
      - exists (JobRendering r). split; [reflexivity|]. right. exists r. auto.
      - exists JobDone. auto.
      - exists JobDone. auto. }
    destruct Hjobs as (st & Ejobs & Hst).
    split; [|split].
    * intros j' blob' H. rewrite Ejobs in H.
      destruct (decide (j = j')) as [<-|Hne].
      -- rewrite list_lookup_insert_eq in H by exact Hlt.
         destruct Hst as [->|(r & -> & _)]; discriminate H.
      -- rewrite list_lookup_insert_ne in H by exact Hne. eapply step_prefix_blob, P1, H.
    * intros j' r' H. rewrite Ejobs in H.
      destruct (decide (j = j')) as [<-|Hne].
      -- rewrite list_lookup_insert_eq in H by exact Hlt.
         destruct Hst as [->|(r & -> & Hd)]; [discriminate H|].
         injection H as <-. exists blob. split; [|exact Hd].
         eapply step_prefix_blob, P1, Hj.
      -- rewrite list_lookup_insert_ne in H by exact Hne. eapply step_decoded_prefix, P2, H.
    * intros f H. rewrite Hf in H. eapply step_decoded_prefix, P3, H.
  - (* RenderingDone *)
    destruct (jobs (dom w) !! j) as [[blob|r|]|] eqn:Hj;
      try (apply frame_feeds_from_prefixes; [| |exact HP];
           simpl; unfold rendering_done; rewrite Hj; reflexivity).
    destruct HP as (P1 & P2 & P3).
    assert (Hlt : (j < length (jobs (dom w)))%nat) by (eapply lookup_lt_Some; eauto).
    pose proof (inv_audio0 _ HI) as Ha0.
    assert (Hjobs : jobs (dom (step w (RenderingDone j))) = <[j := JobDone]> (jobs (dom w))).
    { simpl. unfold rendering_done. rewrite Hj. simpl. repeat case_match; reflexivity. }
    assert (Hfeeds : feeds (eng (step w (RenderingDone j))) = feeds (eng w) \/
                     exists h, feeds (eng (step w (RenderingDone j))) = feeds (eng w) ++ [(h, r)]).
    { simpl. unfold rendering_done. rewrite Hj. simpl. rewrite Ha0.
      repeat case_match; simpl; eauto. }
    split; [|split].
    * intros j' blob' H. rewrite Hjobs in H.
      destruct (decide (j = j')) as [<-|Hne].
      -- rewrite list_lookup_insert_eq in H by exact Hlt. discriminate H.
      -- rewrite list_lookup_insert_ne in H by exact Hne. eapply step_prefix_blob, P1, H.
    * intros j' r' H. rewrite Hjobs in H.
      destruct (decide (j = j')) as [<-|Hne].
      -- rewrite list_lookup_insert_eq in H by exact Hlt. discriminate H.
      -- rewrite list_lookup_insert_ne in H by exact Hne. eapply step_decoded_prefix, P2, H.
    * intros f H. destruct Hfeeds as [E|(h & E)]; rewrite E in H.
      -- eapply step_decoded_prefix, P3, H.
      -- apply elem_of_app in H as [H|H].
         ++ eapply step_decoded_prefix, P3, H.
         ++ apply list_elem_of_singleton in H. subst f.
            apply (step_decoded_prefix w (RenderingDone j) r). eapply P2, Hj.
Qed.

Lemma reachable_feeds_from_prefixes c (w : World) :
  reachable c w -> feeds_from_prefixes decodeAudioData w.
Proof.
  intros [evs ->].
  assert (forall w0 : World, Inv w0 -> feeds_from_prefixes decodeAudioData w0 ->
            feeds_from_prefixes decodeAudioData (run evs w0)) as Hrun.
  { induction evs as [|ev evs IH]; intros w0 HI0 H0; simpl; [exact H0|].
    apply IH; [apply Inv_step, HI0|apply step_feeds_from_prefixes; assumption]. }
  apply Hrun; [apply Inv_new|].
  split; [|split]; simpl; intros ? ?; try intros ?;
    try (rewrite lookup_nil in *; discriminate);
    match goal with H : _ ∈ [] |- _ => inversion H end.
Qed.

(** Whatever the order in which chunks, reads and decodings interleave, and
    across stops and restarts, every buffer given to set_audio is the
    decoding of the first k chunks of one media recorder, for some k: never
    a concatenation of decodings, and never chunks of two recorders mixed. *)
Theorem every_feed_decodes_a_prefix c (w : World) f :
  reachable c w ->
  f ∈ feeds (eng w) ->
  exists rid rc k,
    recorders (dom w) !! rid = Some rc /\
    (k <= length (rec_chunks rc))%nat /\
    decodeAudioData (concat (take k (rec_chunks rc))) = Some (snd f).
Proof.
  intros Hreach Hf.
  destruct (reachable_feeds_from_prefixes c w Hreach) as (_ & _ & P3).
  destruct (P3 f Hf) as (blob & (rid & rc & k & Hrc & Hk & ->) & Hd).
  exists rid, rc, k. auto.
Qed.

(** *** Audio contexts that are replaced (index.ts, 383-391, 460-464) *)




End Proofs.

(** * The claims on concrete runs *)

Import Scenario.

Lemma reachable_model_ready : reachable mock_decode no_options model_ready.
Proof. exists bring_up. reflexivity. Qed.

Lemma reachable_recording : reachable mock_decode no_options recording.
Proof. apply reachable_run, reachable_model_ready. Qed.

Lemma reachable_destroyed : reachable mock_decode no_options destroyed.
Proof. apply reachable_run, reachable_recording. Qed.

Lemma reachable_failed_bring_up : reachable mock_decode no_options failed_bring_up.
Proof. apply reachable_run, reachable_new. Qed.


(** C1 on three segments whose cumulative buffers decode to 1000, 1500 and
    2000 samples: the three feeds have these lengths. *)
Lemma in_order_feeds_are_cumulative_witness :
  recorders (dom recording) !! 0%nat = Some (MkRecorder [] 5000 false) /\
  instance (ctl recording) = Some 7%Z /\
  map (fun f => length (snd f))
    (feeds (eng (run mock_decode (deliver_in_order 0 0 three_segments) recording)))
  = [1000; 1500; 2000]%nat.
Proof.
  split; [reflexivity|]. split; [reflexivity|].
  destruct (in_order_feeds_are_cumulative mock_decode no_options recording 0
              (MkRecorder [] 5000 false) 7 three_segments)
    as [Hfeeds _].
  - exact reachable_recording.
  - reflexivity.
  - discriminate.
  - reflexivity.
  - lia.
  - change (length (jobs (dom recording))) with 0%nat in Hfeeds.
    rewrite Hfeeds. vm_compute. reflexivity.
Defined.

(** C2 on three calls of initialize(), two of them while the bring-up is
    running and one after it. *)
Lemma initialize_is_memoized_witness :
  let w : World byte :=
    run mock_decode
      [CallInitialize; CallInitialize; CoiSettled 0; HelpersSettled 0 true;
       WasmSettled 0 (inr WasmModule); CallInitialize]
      (new_transcriber no_options) in
  initReturns (obs w) = [0; 0; 0]%nat /\
  (coiLoads (dom w) <= 1)%nat /\ (helperLoads (dom w) <= 1)%nat /\
  (wasmLoads (dom w) <= 1)%nat.
Proof.
  intros w. split; [reflexivity|].
  apply (initialize_is_memoized mock_decode no_options
           [CallInitialize; CallInitialize; CoiSettled 0; HelpersSettled 0 true;
            WasmSettled 0 (inr WasmModule); CallInitialize]).
Defined.

(** C3 as stated fails: after the helper script failed to load, a later
    initialize() returns the rejected promise, loads nothing again, and no
    run of the event loop fulfils the promise it returned. *)
Lemma retry_after_failed_bring_up_counterexample :
  promises (dom failed_bring_up) !! 0%nat = Some (InitRejected HelpersLoadFailed) /\
  snd (initialize failed_bring_up) = 0%nat /\
  promises (dom (fst (initialize failed_bring_up))) !! 0%nat
    = Some (InitRejected HelpersLoadFailed) /\
  coiLoads (dom (fst (initialize failed_bring_up))) = 1%nat /\
  helperLoads (dom (fst (initialize failed_bring_up))) = 1%nat /\
  ~ retry_succeeds mock_decode failed_bring_up.
Proof.
  repeat split; try reflexivity.
  intros [evs H].
  change (snd (initialize failed_bring_up)) with 0%nat in H.
  rewrite (run_promise_settled mock_decode evs (fst (initialize failed_bring_up)) 0
             (InitRejected HelpersLoadFailed) eq_refl eq_refl) in H.
  discriminate H.
Qed.

Lemma failed_bring_up_is_kept_witness :
  promises (dom failed_bring_up) !! 0%nat = Some (InitRejected HelpersLoadFailed) /\
  (initPromise (ctl failed_bring_up) = Some 0%nat /\
   Module_ (ctl failed_bring_up) = None /\ modelLoaded (ctl failed_bring_up) = false) /\
  forall later,
    let w' := run mock_decode later failed_bring_up in
    snd (initialize w') = 0%nat /\
    promises (dom (fst (initialize w'))) !! 0%nat = Some (InitRejected HelpersLoadFailed) /\
    coiLoads (dom (fst (initialize w'))) = coiLoads (dom failed_bring_up) /\
    helperLoads (dom (fst (initialize w'))) = helperLoads (dom failed_bring_up) /\
    wasmLoads (dom (fst (initialize w'))) = wasmLoads (dom failed_bring_up) /\
    Module_ (ctl w') = None /\
    modelLoaded (ctl w') = false.
Proof.
  split; [reflexivity|].
  apply (failed_bring_up_is_kept mock_decode no_options failed_bring_up 0 HelpersLoadFailed).
  - exact reachable_failed_bring_up.
  - reflexivity.
Defined.

(** C4 before loadModel() and while recording. *)
Lemma startRecording_guards_witness :
  modelLoaded (ctl (new_transcriber (sample:=byte) no_options)) = false /\
  startRecording 7 (new_transcriber (sample:=byte) no_options)
    = (new_transcriber no_options, Threw ModelNotLoaded) /\
  isRecording (ctl recording) = true /\
  startRecording 7 recording = (recording, Returned).
Proof.
  split; [reflexivity|]. split.
  - apply (startRecording_guards mock_decode no_options (new_transcriber no_options) 7).
    + apply reachable_new.
    + reflexivity.
  - split; [reflexivity|].
    apply (startRecording_guards mock_decode no_options recording 7).
    + exact reachable_recording.
    + reflexivity.
Defined.




(** C7 as stated fails: after stopRecording() and destroy(), initialize()
    returns the promise of the first bring-up and loads nothing, storeFS
    throws on the null [this.Module], and startRecording() throws the
    model-not-loaded error; no run of the event loop sets the recording flag
    again. *)
Lemma reinitialize_after_destroy_counterexample :
  (let w :=
     run mock_decode
       [CallInitialize; CallLoadModel; LoadModelResume 1; TransferComplete 1 [x01; x02; x03]]
       destroyed in
   snd (initialize destroyed) = 0%nat /\
   coiLoads (dom w) = 1%nat /\ helperLoads (dom w) = 1%nat /\ wasmLoads (dom w) = 1%nat /\
   Module_ (ctl w) = None /\
   tr_state <$> transfers (dom w) !! 1%nat = Some (TransferThrew NullDereference) /\
   modelLoaded (ctl w) = false /\
   startRecording 7 w = (w, Threw ModelNotLoaded)) /\
  ~ records_again mock_decode destroyed.
Proof.
  split.
  { cbv zeta. do 7 (split; [vm_compute; reflexivity|]). vm_compute. reflexivity. }
  intros [evs H].
  pose proof (Inv_reachable mock_decode no_options destroyed reachable_destroyed) as HI.
  assert (Hin : inert destroyed).
  { split; [reflexivity|]. exists InitFulfilled. split; reflexivity. }
  pose proof (Inv_run mock_decode evs destroyed HI) as HI'.
  pose proof (run_inert mock_decode evs destroyed HI Hin) as Hin'.
  pose proof (inert_not_loaded _ HI' Hin') as Hl.
  rewrite (not_loaded_not_recording _ HI' Hl) in H. discriminate H.
Qed.

Lemma destroy_is_safe_and_final_witness :
  snd (destroy recording) = Returned /\
  snd (destroy (fst (stopRecording recording))) = Returned /\
  startRecording 7 (fst (destroy recording)) = (fst (destroy recording), Threw ModelNotLoaded) /\
  promises (dom recording) !! 0%nat = Some InitFulfilled /\
  forall later,
    modelLoaded (ctl (run mock_decode later (fst (destroy recording)))) = false /\
    isRecording (ctl (run mock_decode later (fst (destroy recording)))) = false.
Proof.
  destruct (destroy_is_safe_and_final mock_decode no_options recording reachable_recording)
    as (H1 & H2 & H3 & H4).
  split; [exact H1|]. split; [exact H2|]. split; [apply H3|]. split; [reflexivity|].
  intros later.
  destruct (H4 InitFulfilled eq_refl eq_refl later) as (_ & _ & _ & _ & _ & _ & Hl & Hr & _).
  split; [exact Hl|exact Hr].
Defined.

(** C8 on the poller of the recording, with a runtime that answers "hello"
    and then the empty string; the one code unit of U+00E9 is not forwarded,
    the two code units of U+1F600 are. *)
Lemma poller_forwards_and_stops_witness :
  intervals (dom recording) !! 0%nat = Some (MkInterval 100 false) /\
  isRecording (ctl recording) = true /\
  transcriptions
    (obs (run mock_decode
            [PollTick 0 (Some hello); PollTick 0 (Some []);
             PollTick 0 (Some [])]
            recording))
  = transcriptions (obs recording) ++ [hello] /\
  transcriptions (obs (poll_tick 0 (Some [233%N]) recording))
  = transcriptions (obs recording) /\
  transcriptions (obs (poll_tick 0 (Some [55357%N; 56832%N]) recording))
  = transcriptions (obs recording) ++ [[55357%N; 56832%N]].
Proof.
  split; [reflexivity|]. split; [reflexivity|].
  destruct (poller_forwards_and_stops mock_decode no_options recording 0
              (MkInterval 100 false) reachable_recording eq_refl)
    as (_ & Hlive & _ & _ & Hhello).
  split; [apply Hhello; reflexivity|].
  split.
  - destruct (Hlive eq_refl eq_refl (Some [233%N])) as (_ & Hshort & _).
    apply Hshort. right. exists [233%N]. split; [reflexivity|]. simpl. lia.
  - destruct (Hlive eq_refl eq_refl (Some [55357%N; 56832%N])) as (Hlong & _).
    apply Hlong; [reflexivity|]. simpl. lia.
Defined.




(** * The further properties on concrete runs *)

Import Runs.

Lemma reachable_custom_recording : reachable mock_decode custom_options custom_recording.
Proof. exists (bring_up ++ start_granted). reflexivity. Qed.

Lemma reachable_runtime_ready : reachable mock_decode no_options runtime_ready.
Proof. apply reachable_run, reachable_new. Qed.

Lemma reachable_fed : reachable mock_decode no_options fed.
Proof. apply reachable_run, reachable_recording. Qed.

Lemma start_awaiting_device :
  startRecording 7 model_ready = (awaiting_device, AwaitingDevice 0).
Proof. vm_compute. reflexivity. Qed.


Lemma first_feed_fed :
  (7%Z, replicate 500 x01 ++ replicate 500 x02) ∈ feeds (eng fed).
Proof. apply (list_elem_of_lookup_2 _ 0%nat). vm_compute. reflexivity. Qed.

Lemma last_feed_fed :
  (7%Z, replicate 500 x01 ++ replicate 500 x02 ++ replicate 500 x03 ++ replicate 500 x04)
    ∈ feeds (eng fed).
Proof. apply (list_elem_of_lookup_2 _ 2%nat). vm_compute. reflexivity. Qed.

(** The constructor on [custom_options]: the URL and the interval are kept,
    the falsy sample rate becomes 16000. *)
Lemma resolve_config_defaults_witness :
  modelUrl (resolve_config custom_options) = "https://example.org/model.bin" /\
  sampleRate (resolve_config custom_options) = 16000%Z /\
  audioIntervalMs (resolve_config custom_options) = 2000%Z /\
  modelSize (resolve_config custom_options) = TinyEn.
Proof.
  destruct (resolve_config_defaults custom_options)
    as (_ & Hu & _ & Hi & _ & Hs & _ & _ & Hm).
  split; [apply Hu; [reflexivity|discriminate]|].
  split; [apply Hs; right; reflexivity|].
  split; [apply Hi; [reflexivity|discriminate]|].
  apply Hm. reflexivity.
Defined.

(** A recording under [custom_options]. *)
Lemma stores_made_from_config_witness :
  reachable mock_decode custom_options custom_recording /\
  config (ctl custom_recording) = resolve_config custom_options /\
  (forall i t, transfers (dom custom_recording) !! i = Some t ->
     tr_url t = modelUrl (resolve_config custom_options) /\
     tr_dst t = "whisper.bin" /\
     tr_size_mb t = MODEL_SIZES (default BaseEnQ51 (cfg_modelSize custom_options))) /\
  (forall a x, contexts (dom custom_recording) !! a = Some x ->
     ctx_sampleRate (ctx_options x) = sampleRate (resolve_config custom_options) /\
     ctx_sampleRate (ctx_options x) <> 0%Z) /\
  (forall r x, recorders (dom custom_recording) !! r = Some x ->
     rec_timeslice x = audioIntervalMs (resolve_config custom_options) /\
     rec_timeslice x <> 0%Z).
Proof.
  split; [exact reachable_custom_recording|].
  apply (stores_made_from_config mock_decode custom_options custom_recording).
  exact reachable_custom_recording.
Defined.

(** After the helper script failed to load, loadModel() and
    startRecording() still report nothing. *)
Lemma silent_until_runtime_ready_witness :
  reachable mock_decode no_options failed_bring_up /\
  promises (dom failed_bring_up) !! 0%nat <> Some InitFulfilled /\
  let w' := run mock_decode [CallLoadModel; CallStartRecording 7] failed_bring_up in
  statusLog (obs w') = [] /\ transfers (dom w') = [] /\
  deviceRequests (dom w') = [] /\ initCalls (eng w') = [].
Proof.
  split; [exact reachable_failed_bring_up|].
  assert (H : promises (dom failed_bring_up) !! 0%nat <> Some InitFulfilled)
    by (vm_compute; discriminate).
  split; [exact H|].
  destruct (silent_until_runtime_ready mock_decode no_options failed_bring_up
              reachable_failed_bring_up H) as [_ H2].
  exact (H2 HelpersLoadFailed eq_refl [CallLoadModel; CallStartRecording 7]).
Defined.

(** loadModel() after an initialize() that has finished. *)
Lemma loadModel_loads_when_runtime_ready_witness :
  reachable mock_decode no_options runtime_ready /\
  Module_ (ctl runtime_ready) <> None /\
  modelLoaded (ctl runtime_ready) = false /\
  let w' :=
    run mock_decode
      [CallLoadModel;
       LoadModelResume (length (loadWaiters (dom runtime_ready)));
       TransferComplete (length (transfers (dom runtime_ready))) [x01; x02]] runtime_ready in
  modelLoaded (ctl w') = true /\
  storedModel (eng w') = Some [x01; x02] /\
  statusLog (obs w')
    = statusLog (obs runtime_ready) ++ ["Loading model..."; "Model loaded successfully"] /\
  length (transfers (dom w')) = S (length (transfers (dom runtime_ready))) /\
  coiLoads (dom w') = coiLoads (dom runtime_ready) /\
  helperLoads (dom w') = helperLoads (dom runtime_ready) /\
  wasmLoads (dom w') = wasmLoads (dom runtime_ready) /\
  loadModel w' = (w', Returned).
Proof.
  split; [exact reachable_runtime_ready|].
  assert (H : Module_ (ctl runtime_ready) <> None) by (vm_compute; discriminate).
  split; [exact H|]. split; [reflexivity|].
  apply (loadModel_loads_when_runtime_ready mock_decode no_options runtime_ready [x01; x02]
           reachable_runtime_ready H eq_refl).
Defined.

(** Two overlapping calls of loadModel() after initialize(). *)
Lemma overlapping_loadModel_transfers_twice_witness :
  reachable mock_decode no_options runtime_ready /\
  Module_ (ctl runtime_ready) <> None /\
  modelLoaded (ctl runtime_ready) = false /\
  let n := length (loadWaiters (dom runtime_ready)) in
  let w' :=
    run mock_decode
      [CallLoadModel; CallLoadModel; LoadModelResume n; LoadModelResume (S n)]
      runtime_ready in
  transfers (dom w') =
    transfers (dom runtime_ready)
      ++ [modelTransfer (config (ctl runtime_ready));
          modelTransfer (config (ctl runtime_ready))] /\
  statusLog (obs w')
    = statusLog (obs runtime_ready) ++ ["Loading model..."; "Loading model..."] /\
  initReturns (obs w') = initReturns (obs runtime_ready) ++ [0; 0]%nat /\
  coiLoads (dom w') = coiLoads (dom runtime_ready) /\
  modelLoaded (ctl w') = false.
Proof.
  split; [exact reachable_runtime_ready|].
  assert (H : Module_ (ctl runtime_ready) <> None) by (vm_compute; discriminate).
  split; [exact H|]. split; [reflexivity|].
  apply (overlapping_loadModel_transfers_twice mock_decode no_options runtime_ready
           reachable_runtime_ready H eq_refl).
Defined.

(** init returning 0 and then 7 from the state with the model loaded. *)
Lemma failed_engine_init_can_be_retried_witness :
  reachable mock_decode no_options model_ready /\
  modelLoaded (ctl model_ready) = true /\
  isRecording (ctl model_ready) = false /\
  truthy (instance (ctl model_ready)) = false /\
  7%Z <> 0%Z /\
  let w1 := fst (startRecording 0 model_ready) in
  snd (startRecording 0 model_ready) = Threw WhisperInitFailed /\
  contexts (dom w1) = contexts (dom model_ready) /\
  deviceRequests (dom w1) = deviceRequests (dom model_ready) /\
  audioContext (ctl w1) = audioContext (ctl model_ready) /\
  isRecording (ctl w1) = false /\
  statusLog (obs w1) = statusLog (obs model_ready) /\
  initCalls (eng w1) = initCalls (eng model_ready) ++ [0%Z] /\
  snd (startRecording 7 w1) = AwaitingDevice (length (deviceRequests (dom model_ready))) /\
  initCalls (eng (fst (startRecording 7 w1))) = initCalls (eng model_ready) ++ [0%Z; 7%Z] /\
  instance (ctl (fst (startRecording 7 w1))) = Some 7%Z /\
  isRecording (ctl (fst (startRecording 7 w1))) = true.
Proof.
  split; [exact reachable_model_ready|].
  split; [reflexivity|]. split; [reflexivity|]. split; [reflexivity|].
  split; [lia|].
  apply (failed_engine_init_can_be_retried mock_decode no_options model_ready 7
           reachable_model_ready eq_refl eq_refl eq_refl).
  lia.
Defined.

(** The recorder of a running recording stops by itself. *)
Lemma restart_while_recording_does_nothing_witness :
  reachable mock_decode no_options recording /\
  isRecording (ctl recording) = true /\
  is_Some (recorders (dom recording) !! 0%nat) /\
  run mock_decode [RecorderStop 0; RestartTimer 9] recording = recording /\
  (forall h', ctl (step mock_decode recording (RestartTimer h')) = ctl recording /\
              eng (step mock_decode recording (RestartTimer h')) = eng recording /\
              obs (step mock_decode recording (RestartTimer h')) = obs recording /\
              deviceRequests (dom (step mock_decode recording (RestartTimer h')))
                = deviceRequests (dom recording) /\
              recorders (dom (step mock_decode recording (RestartTimer h')))
                = recorders (dom recording) /\
              contexts (dom (step mock_decode recording (RestartTimer h')))
                = contexts (dom recording)).
Proof.
  split; [exact reachable_recording|]. split; [reflexivity|].
  assert (H : is_Some (recorders (dom recording) !! 0%nat))
    by (exists (MkRecorder [] 5000 false); reflexivity).
  split; [exact H|].
  apply (restart_while_recording_does_nothing mock_decode no_options recording 0 9
           reachable_recording eq_refl H).
Defined.

(** stopRecording() between onstop and its timeout. *)
Lemma restart_after_stop_records_again_witness :
  reachable mock_decode no_options recording /\
  isRecording (ctl recording) = true /\
  is_Some (recorders (dom recording) !! 0%nat) /\
  let w' := run mock_decode [RecorderStop 0; CallStopRecording; RestartTimer 9] recording in
  isRecording (ctl w') = true /\
  statusLog (obs w') = statusLog (obs recording) ++ ["Stopped"; "Recording..."] /\
  deviceRequests (dom w') =
    deviceRequests (dom recording) ++ [MkDeviceRequest userMediaConstraints RequestPending] /\
  audioContext (ctl w') = Some (length (contexts (dom recording))) /\
  initCalls (eng w') = initCalls (eng recording).
Proof.
  split; [exact reachable_recording|]. split; [reflexivity|].
  assert (H : is_Some (recorders (dom recording) !! 0%nat))
    by (exists (MkRecorder [] 5000 false); reflexivity).
  split; [exact H|].
  apply (restart_after_stop_records_again mock_decode no_options recording 0 9
           reachable_recording eq_refl H).
Defined.


Lemma decode_one : mock_decode (concat ([] ++ [[x01]])) = Some (replicate 500 x01).
Proof. vm_compute. reflexivity. Qed.

Lemma decode_two :
  mock_decode (concat ([] ++ [[x01]; [x02]])) = Some (replicate 500 x01 ++ replicate 500 x02).
Proof. vm_compute. reflexivity. Qed.

(** Two chunks whose decodings finish in the opposite order. *)
Lemma out_of_order_feeds_end_with_the_older_witness :
  reachable mock_decode no_options recording /\
  recorders (dom recording) !! 0%nat = Some (MkRecorder [] 5000 false) /\
  audioContext (ctl recording) <> None /\
  instance (ctl recording) = Some 7%Z /\
  7%Z <> 0%Z /\
  mock_decode (concat ([] ++ [[x01]])) = Some (replicate 500 x01) /\
  mock_decode (concat ([] ++ [[x01]; [x02]]))
    = Some (replicate 500 x01 ++ replicate 500 x02) /\
  let j := length (jobs (dom recording)) in
  let w' :=
    run mock_decode
      [DataAvailable 0 [x01]; DataAvailable 0 [x02];
       ReaderLoaded j; ReaderLoaded (S j);
       RenderingDone (S j); RenderingDone j] recording in
  feeds (eng w')
    = feeds (eng recording)
        ++ [(7%Z, replicate 500 x01 ++ replicate 500 x02); (7%Z, replicate 500 x01)] /\
  audio (ctl w') = Some (replicate 500 x01).
Proof.
  split; [exact reachable_recording|]. split; [reflexivity|].
  assert (H : audioContext (ctl recording) <> None) by (vm_compute; discriminate).
  split; [exact H|]. split; [reflexivity|]. split; [lia|].
  split; [exact decode_one|]. split; [exact decode_two|].
  apply (out_of_order_feeds_end_with_the_older mock_decode no_options recording 0
           (MkRecorder [] 5000 false) 7 [x01] [x02]
           (replicate 500 x01) (replicate 500 x01 ++ replicate 500 x02)
           reachable_recording eq_refl H eq_refl).
  - lia.
  - exact decode_one.
  - exact decode_two.
Defined.

Lemma segments_start_nothing :
  Forall (fun ev => starts_recording ev = false) (deliver_in_order 0 0 three_segments).
Proof. vm_compute. repeat constructor. Qed.

(** Three segments delivered and processed after stopRecording(). *)
Lemma chunks_after_stop_are_dropped_witness :
  reachable mock_decode no_options recording /\
  isRecording (ctl recording) = true /\
  nothing_rendering recording /\
  Forall (fun ev => starts_recording ev = false) (deliver_in_order 0 0 three_segments) /\
  let w' :=
    run mock_decode (deliver_in_order 0 0 three_segments) (fst (stopRecording recording)) in
  feeds (eng w') = feeds (eng recording) /\ audio (ctl w') = None /\ nothing_rendering w'.
Proof.
  split; [exact reachable_recording|]. split; [reflexivity|].
  assert (H : nothing_rendering recording) by constructor.
  split; [exact H|]. split; [exact segments_start_nothing|].
  apply (chunks_after_stop_are_dropped mock_decode no_options recording
           (deliver_in_order 0 0 three_segments)
           reachable_recording eq_refl H segments_start_nothing).
Defined.

(** The first and the last feed of [fed]. *)
Lemma feeds_go_to_one_instance_witness :
  reachable mock_decode no_options fed /\
  (7%Z, replicate 500 x01 ++ replicate 500 x02) ∈ feeds (eng fed) /\
  (7%Z, replicate 500 x01 ++ replicate 500 x02 ++ replicate 500 x03 ++ replicate 500 x04)
    ∈ feeds (eng fed) /\
  fst (7%Z, replicate 500 x01 ++ replicate 500 x02) <> 0%Z /\
  fst (7%Z, replicate 500 x01 ++ replicate 500 x02) ∈ initCalls (eng fed) /\
  fst (7%Z, replicate 500 x01 ++ replicate 500 x02)
  = fst (7%Z, replicate 500 x01 ++ replicate 500 x02
                ++ replicate 500 x03 ++ replicate 500 x04).
Proof.
  split; [exact reachable_fed|]. split; [exact first_feed_fed|].
  split; [exact last_feed_fed|].
  apply (feeds_go_to_one_instance mock_decode no_options fed _ _
           reachable_fed first_feed_fed last_feed_fed).
Defined.

(** destroy() while recording, then everything is called again. *)
Lemma destroyed_controller_leaves_engine_alone_witness :
  reachable mock_decode no_options recording /\
  promises (dom recording) !! 0%nat = Some InitFulfilled /\
  is_settled InitFulfilled = true /\
  let later := [CallInitialize; CallLoadModel; LoadModelResume 1; CallStartRecording 9] in
  let w' := fst (destroy recording) in
  eng (run mock_decode later w') = eng w' /\
  length (deviceRequests (dom (run mock_decode later w'))) = length (deviceRequests (dom w')) /\
  contexts (dom (run mock_decode later w')) = contexts (dom w') /\
  transcriptions (obs (run mock_decode later w')) = transcriptions (obs w') /\
  truthy (instance (ctl (run mock_decode later w'))) = false.
Proof.
  split; [exact reachable_recording|]. split; [reflexivity|]. split; [reflexivity|].
  apply (destroyed_controller_leaves_engine_alone mock_decode no_options recording
           InitFulfilled
           [CallInitialize; CallLoadModel; LoadModelResume 1; CallStartRecording 9]
           reachable_recording eq_refl eq_refl).
Defined.

(** stopRecording() and destroy() twice while recording. *)
Lemma stop_and_destroy_are_idempotent_witness :
  reachable mock_decode no_options recording /\
  stopRecording (fst (stopRecording recording)) = (fst (stopRecording recording), Returned) /\
  destroy (fst (destroy recording)) = (fst (destroy recording), Returned).
Proof.
  split; [exact reachable_recording|].
  apply (stop_and_destroy_are_idempotent mock_decode no_options recording
           reachable_recording).
Defined.

(** Record, stop and record again before the first poller has ticked. *)
Lemma quick_restart_leaves_two_pollers_witness :
  startRecording 7 model_ready = (awaiting_device, AwaitingDevice 0) /\
  let w2 :=
    run mock_decode
      [UserMediaGranted 0; CallStopRecording; CallStartRecording 9; UserMediaGranted 1]
      awaiting_device in
  let n := length (intervals (dom model_ready)) in
  intervals (dom w2)
    = intervals (dom model_ready) ++ [MkInterval 100 false; MkInterval 100 false] /\
  isRecording (ctl w2) = true /\
  forall text, (1 < length text)%nat ->
    transcriptions
      (obs (run mock_decode [PollTick n (Some text); PollTick (S n) (Some text)] w2))
    = transcriptions (obs w2) ++ [text; text].
Proof.
  split; [exact start_awaiting_device|].
  apply (quick_restart_leaves_two_pollers mock_decode model_ready 7 9 awaiting_device 0
           start_awaiting_device).
Defined.

(** After loadModel() has run to its end. *)
Lemma ready_is_announced_once_witness :
  reachable mock_decode no_options model_ready /\
  (ready_announcements model_ready <= 1)%nat /\
  (ready_announcements model_ready = 1%nat
   <-> promises (dom model_ready) !! 0%nat = Some InitFulfilled).
Proof.
  split; [exact reachable_model_ready|].
  apply (ready_is_announced_once mock_decode no_options model_ready reachable_model_ready).
Defined.

(** The last feed of [fed]. *)
Lemma every_feed_decodes_a_prefix_witness :
  reachable mock_decode no_options fed /\
  (7%Z, replicate 500 x01 ++ replicate 500 x02 ++ replicate 500 x03 ++ replicate 500 x04)
    ∈ feeds (eng fed) /\
  exists rid rc k,
    recorders (dom fed) !! rid = Some rc /\
    (k <= length (rec_chunks rc))%nat /\
    mock_decode (concat (take k (rec_chunks rc)))
    = Some (snd (7%Z, replicate 500 x01 ++ replicate 500 x02
                        ++ replicate 500 x03 ++ replicate 500 x04)).
Proof.
  split; [exact reachable_fed|]. split; [exact last_feed_fed|].
  apply (every_feed_decodes_a_prefix mock_decode no_options fed _
           reachable_fed last_feed_fed).
Defined.

